(** * node-red-contrib-noble: the "scan ble" node

    A shallow embedding of [noble/node-red-contrib-noble.js]: the handler of
    noble's 'discover' notification (beacon payload decoding, accuracy and
    proximity zone), the two functions [startScan] and [stopScan], the
    handlers of 'stateChange', 'input' and 'close', and the start-up code of
    [NobleScan].

    Conventions.
    - A Node [Buffer] is a [list byte]; its reads are those of Node's
      [Buffer] ([slice], [toString('hex')], [readUInt16BE], [readInt8]).
    - A JavaScript number is an extended real ([number]): the finite values
      are real numbers, so rounding, overflow and the sign of zero are left
      out; the two infinities and NaN are kept, because the division of the
      accuracy formula produces them when the divisor is zero.
    - Everything the node does to the outside (node.send, node.warn,
      noble.startScanning, setTimeout, ...) is recorded, in order, in a trace
      of [action]s; an exception that leaves a handler is part of the
      handler's outcome.
    - The adapter is noble (1.9.1), which is not part of this file. What the
      node relies on is written where it is used: the shape of the
      peripherals it delivers ([delivered_by_noble]), when it calls the
      completion callbacks ([startScanning], [stopScanning]), and what
      removeAllListeners removes ([on_close]). Callbacks that noble keeps
      for later are in the world as outstanding callbacks, and the
      environment decides when one runs. *)

From Stdlib Require Import ZArith List String Ascii Bool Lia.
From Stdlib Require Import Reals Lra.
From Stdlib.Strings Require Import Byte.
Import ListNotations.

Local Open Scope Z_scope.

#[local] Set Warnings "-register-all".

(** ** Node's Buffer *)

Module Buffer.

Definition t := list byte.

(** The unsigned value of the byte, [buf[i]] in JavaScript. *)
Definition value (b : byte) : Z := Z.of_N (Byte.to_N b).

Definition length (buf : t) : Z := Z.of_nat (List.length buf).

(** [buf[i]]: [None] stands for JavaScript's undefined. *)
Definition get (buf : t) (i : Z) : option Z :=
  if i <? 0 then None else option_map value (nth_error buf (Z.to_nat i)).

(** [buf.slice(start, end)] for [0 <= start <= end]; both ends are clamped
    to the length of the buffer, as Node does. *)
Definition slice (start stop : Z) (buf : t) : t :=
  firstn (Z.to_nat (stop - start)) (skipn (Z.to_nat start) buf).

Definition hexdigit (n : Z) : ascii :=
  match n with
  | 0 => "0" | 1 => "1" | 2 => "2" | 3 => "3" | 4 => "4" | 5 => "5"
  | 6 => "6" | 7 => "7" | 8 => "8" | 9 => "9" | 10 => "a" | 11 => "b"
  | 12 => "c" | 13 => "d" | 14 => "e" | _ => "f"
  end%char.

(** [buf.toString('hex')]: two lowercase digits per byte, high nibble
    first. *)
Fixpoint toString_hex (buf : t) : string :=
  match buf with
  | [] => EmptyString
  | b :: rest =>
      String (hexdigit (Z.shiftr (value b) 4))
        (String (hexdigit (Z.land (value b) 15)) (toString_hex rest))
  end.

(** [buf.readUInt16BE(offset)]: [buf[offset] << 8 | buf[offset + 1]];
    [None] when the two bytes are not inside the buffer (Node raises a
    RangeError there). *)
Definition readUInt16BE (buf : t) (offset : Z) : option Z :=
  match get buf offset, get buf (offset + 1) with
  | Some hi, Some lo => Some (Z.lor (Z.shiftl hi 8) lo)
  | _, _ => None
  end.

(** [buf.readInt8(offset)]: the byte when its bit 7 is clear, otherwise
    [(0xff - buf[offset] + 1) * -1]. *)
Definition readInt8 (buf : t) (offset : Z) : option Z :=
  match get buf offset with
  | Some v => Some (if Z.land v 128 =? 0 then v else (255 - v + 1) * -1)
  | None => None
  end.

End Buffer.

(** A reader of lowercase hexadecimal text, independent of
  [Buffer.toString_hex]: it is what "lowercase hex without separators"
  means in the statements below. *)
Module Hex.

(** The value of a lowercase hex digit, by its character code: '0'..'9' are
    48..57 and 'a'..'f' are 97..102. *)
Definition digit (c : ascii) : option Z :=
  let code := Z.of_nat (nat_of_ascii c) in
  if (48 <=? code) && (code <=? 57) then Some (code - 48)
  else if (97 <=? code) && (code <=? 102) then Some (code - 97 + 10)
  else None.

(** The bytes a string of lowercase hex digits spells, two digits a byte;
    [None] for any other text. *)
Fixpoint read (s : string) : option (list Z) :=
  match s with
  | EmptyString => Some []
  | String hi (String lo rest) =>
      match digit hi, digit lo, read rest with
      | Some h, Some l, Some tl => Some (16 * h + l :: tl)
      | _, _, _ => None
      end
  | String _ EmptyString => None
  end.

End Hex.

(** ** JavaScript numbers *)

(** Extended reals: the finite numbers, the two infinities and NaN. *)
Inductive number : Type :=
| Fin (x : R)
| PosInfinity
| NegInfinity
| NaN.

Module Num.

(** [x / y] for two integers. JavaScript divides by zero without an
    exception: the quotient is an infinity with the sign of [x], and NaN for
    [0 / 0]. *)
Definition div (x y : Z) : number :=
  if y =? 0 then
    if 0 <? x then PosInfinity else if x <? 0 then NegInfinity else NaN
  else Fin (IZR x / IZR y).

(** [a - c] for a finite constant [c]. *)
Definition sub (a : number) (c : R) : number :=
  match a with
  | Fin x => Fin (x - c)
  | PosInfinity => PosInfinity
  | NegInfinity => NegInfinity
  | NaN => NaN
  end.

(** [c * a] for a finite constant [c > 0]. *)
Definition mul (c : R) (a : number) : number :=
  match a with
  | Fin x => Fin (c * x)
  | PosInfinity => PosInfinity
  | NegInfinity => NegInfinity
  | NaN => NaN
  end.

(** [Math.pow(b, e)] for a finite base [b > 1]: real exponentiation,
    [exp (e * ln b)]. *)
Definition pow (b : R) (e : number) : number :=
  match e with
  | Fin y => Fin (Rpower b y)
  | PosInfinity => PosInfinity
  | NegInfinity => Fin 0
  | NaN => NaN
  end.

(** [a < c] for a finite constant [c]; every comparison with NaN is false. *)
Definition lt (a : number) (c : R) : bool :=
  match a with
  | Fin x => if Rlt_dec x c then true else false
  | NegInfinity => true
  | PosInfinity => false
  | NaN => false
  end.

End Num.

(** ** What noble hands to the 'discover' listener *)

Module Advertisement.
(** [peripheral.advertisement]: this is where noble puts the manufacturer
    data it has received. *)
Record t : Type := mk {
  localName : option string;
  serviceUuids : list string;
  (* undefined (None) or a Buffer *)
  manufacturerData : option Buffer.t
}.
End Advertisement.

Module Peripheral.
(** The object the listener is called with, by the properties the listener
    reads. [manufacturerData] is what line 58 reads,
    [peripheral.manufacturerData]: undefined (None) or a Buffer. The
    peripherals noble builds have no such property (see
    [delivered_by_noble]). *)
Record t : Type := mk {
  uuid : string;
  address : string;
  advertisement : Advertisement.t;
  rssi : Z;
  manufacturerData : option Buffer.t
}.
End Peripheral.

(** A peripheral as noble (1.9.1) builds it: its properties are id, uuid,
    address, addressType, connectable, advertisement, rssi, services and
    state. The manufacturer data is under [advertisement], and
    [peripheral.manufacturerData] is undefined. *)
Definition delivered_by_noble (p : Peripheral.t) : Prop :=
  Peripheral.manufacturerData p = None.

(** ** Messages passed to node.send *)

Module Discovery.
(** The message built by the 'discover' listener. Its last six properties
    exist only when the listener has assigned them. *)
Record t : Type := mk {
  payload : string * option string;  (* {peripheralUuid, localName} *)
  peripheralUuid : string;
  address : string;
  localName : option string;
  detectedAt : Z;
  detectedBy : string;
  advertisement : Advertisement.t;
  rssi : Z;
  timestamp : string;
  manufacturerUuid : option string;
  major : option Z;
  minor : option Z;
  measuredPower : option Z;
  accuracy : option number;
  proximity : option string
}.
End Discovery.

Inductive message : Type :=
| DiscoveryMsg (m : Discovery.t)
(* { statusUpdate: true, error, stateChange, state } *)
| StatusMsg (error stateChange : bool) (state : string).

(** ** Values of inbound messages *)

Module JS.

(** The values a message can carry: data, no functions. An object is the
    list of its own properties; the first entry of a name is the property. *)
Inductive value : Type :=
| undefined
| null
| boolean (b : bool)
| num (z : Z)
| str (s : string)
| object (props : list (string * value))
| array (items : list value).

Definition typeof (v : value) : string :=
  match v with
  | undefined => "undefined"
  | null => "object"
  | boolean _ => "boolean"
  | num _ => "number"
  | str _ => "string"
  | object _ => "object"
  | array _ => "object"
  end.

Fixpoint own (k : string) (props : list (string * value)) : option value :=
  match props with
  | [] => None
  | (k', v) :: rest => if String.eqb k k' then Some v else own k rest
  end.

(** [v.k] for a name [k] that no prototype defines. *)
Definition get (v : value) (k : string) : value :=
  match v with
  | object props => match own k props with Some x => x | None => undefined end
  | _ => undefined
  end.

End JS.

(** ** Effects *)

Inductive error : Type :=
| ReferenceError (name : string)
| TypeError (what : string)
| RangeError (what : string).

Inductive action : Type :=
| node_send (m : message)
| node_warn (text : string)
| node_log (text : string)
| node_status (fill shape text : string)
| noble_startScanning (uuids : list string) (duplicates : bool)
| noble_stopScanning
| noble_removeAllListeners
| setTimeout (ms : Z).

(** The completion callbacks the node hands to noble. *)
Inductive callback : Type :=
| scanStarted   (* the function passed to noble.startScanning *)
| scanStopped.  (* the function passed to noble.stopScanning *)

Module Node.
(** The properties of [node] the code uses. [scanning] is undefined
    ([None]) until a completion callback assigns it. *)
Record t : Type := mk {
  uuids : list string;
  duplicates : bool;
  scanning : option bool
}.

Definition set_scanning (b : bool) (n : t) : t :=
  mk (uuids n) (duplicates n) (Some b).
End Node.

(** JavaScript truthiness of [node.scanning]. *)
Definition truthy (v : option bool) : bool :=
  match v with
  | Some true => true
  | _ => false
  end.

Record world : Type := mkWorld {
  node : Node.t;
  (* noble.state, owned by the adapter *)
  noble_state : string;
  (* the 'discover' and 'stateChange' listeners are attached to noble *)
  noble_listeners : bool;
  (* callbacks handed to noble and not yet called, oldest first *)
  outstanding : list callback;
  (* functions scheduled with setTimeout, each with the msg it closes over *)
  timeouts : list message
}.

(** What lies outside the file: the host name, and the binding of the
    identifier [rssi] in the global object, if there is one. *)
Record env : Type := mkEnv {
  hostname : string;
  global_rssi : option Z
}.

(** A computation of a handler: it reads and writes the world, records
    actions, and either returns or throws. *)
Definition M (A : Type) : Type := world -> list action * world * (A + error).

Definition ret {A} (a : A) : M A := fun w => ([], w, inl a).

Definition throw {A} (e : error) : M A := fun w => ([], w, inr e).

Definition bind {A B} (c : M A) (k : A -> M B) : M B :=
  fun w =>
    match c w with
    | (t1, w1, inl a) =>
        match k a w1 with
        | (t2, w2, r) => (t1 ++ t2, w2, r)
        end
    | (t1, w1, inr e) => (t1, w1, inr e)
    end.

Notation "'let*' x ':=' c 'in' k" := (bind c (fun x => k))
  (at level 10, x name, c at level 100, k at level 200).
Notation "c ';;' k" := (bind c (fun _ => k))
  (at level 100, k at level 200, right associativity).

Definition emit (a : action) : M unit := fun w => ([a], w, inl tt).

Definition read {A} (f : world -> A) : M A := fun w => ([], w, inl (f w)).

Definition update (f : world -> world) : M unit := fun w => ([], f w, inl tt).

Definition when (b : bool) (c : M unit) : M unit := if b then c else ret tt.

(** ** The 'discover' listener (lines 46-90) *)

(** The names declared in the scopes around line 66: the listener's own, then
    those of [NobleScan], then those of the module function. An identifier
    that is not among them is looked up in the global object. *)
Definition declared_names : list string :=
  [ "peripheral"; "msg"; "proxUuid"; "major"; "minor"; "measuredPower";
    "accuracy"; "proximity";
    "n"; "node"; "machineId"; "scanning"; "startScan"; "stopScan";
    "RED"; "noble"; "dateformat"; "os"; "NobleScan" ]%string.

(** The value of the identifier [rssi] at line 66. *)
Definition rssi_identifier (e : env) : M Z :=
  match global_rssi e with
  | Some r => ret r
  | None => throw (ReferenceError "rssi")
  end.

(** A read of a Buffer that Node refuses outside the buffer. *)
Definition checked (what : string) (r : option Z) : M Z :=
  match r with
  | Some v => ret v
  | None => throw (RangeError what)
  end.

(** Lines 69-77. *)
Definition classify (accuracy : number) : string :=
  if Num.lt accuracy 0 then "unknown"
  else if Num.lt accuracy 0.5 then "immediate"
  else if Num.lt accuracy 4.0 then "near"
  else "far".

(** Line 66: [Math.pow(12.0, 1.5 * ((rssi / measuredPower) - 1))], in exact
    arithmetic. The double that JavaScript computes is the rounding of this
    value as long as it is in the range of the doubles, which it is for
    operands in the range of a signed byte; far outside that range the
    double overflows to Infinity or underflows to 0. *)
Definition accuracy_of (rssi measuredPower : Z) : number :=
  Num.pow 12.0 (Num.mul 1.5 (Num.sub (Num.div rssi measuredPower) 1)).

(** Lines 47-55: the message before the beacon properties. [now] is
    [new Date().getTime()] and [iso] the text dateformat returns. *)
Definition base_msg (e : env) (p : Peripheral.t) (now : Z) (iso : string)
  : Discovery.t :=
  {| Discovery.payload :=
       (Peripheral.uuid p,
        Advertisement.localName (Peripheral.advertisement p));
     Discovery.peripheralUuid := Peripheral.uuid p;
     Discovery.address := Peripheral.address p;
     Discovery.localName :=
       Advertisement.localName (Peripheral.advertisement p);
     Discovery.detectedAt := now;
     Discovery.detectedBy := hostname e;
     Discovery.advertisement := Peripheral.advertisement p;
     Discovery.rssi := Peripheral.rssi p;
     Discovery.timestamp := iso;
     Discovery.manufacturerUuid := None;
     Discovery.major := None;
     Discovery.minor := None;
     Discovery.measuredPower := None;
     Discovery.accuracy := None;
     Discovery.proximity := None |}.

(** Lines 79-84. *)
Definition with_beacon (m : Discovery.t) (proxUuid : string)
    (major minor measuredPower : Z) (accuracy : number) (proximity : string)
  : Discovery.t :=
  {| Discovery.payload := Discovery.payload m;
     Discovery.peripheralUuid := Discovery.peripheralUuid m;
     Discovery.address := Discovery.address m;
     Discovery.localName := Discovery.localName m;
     Discovery.detectedAt := Discovery.detectedAt m;
     Discovery.detectedBy := Discovery.detectedBy m;
     Discovery.advertisement := Discovery.advertisement m;
     Discovery.rssi := Discovery.rssi m;
     Discovery.timestamp := Discovery.timestamp m;
     Discovery.manufacturerUuid := Some proxUuid;
     Discovery.major := Some major;
     Discovery.minor := Some minor;
     Discovery.measuredPower := Some measuredPower;
     Discovery.accuracy := Some accuracy;
     Discovery.proximity := Some proximity |}.

(** The decoded beacon fields of lines 61-64. *)
Record BeaconFields : Type := mkBeacon {
  proxUuid : string;
  beacon_major : Z;
  beacon_minor : Z;
  beacon_measuredPower : Z
}.

(** Lines 61-64, in the order of the source. *)
Definition read_beacon (md : Buffer.t) : M BeaconFields :=
  let proxUuid := Buffer.toString_hex (Buffer.slice 4 20 md) in
  let* major := checked "readUInt16BE" (Buffer.readUInt16BE md 20) in
  let* minor := checked "readUInt16BE" (Buffer.readUInt16BE md 22) in
  let* measuredPower := checked "readInt8" (Buffer.readInt8 md 24) in
  ret (mkBeacon proxUuid major minor measuredPower).

(** Lines 58-64: the payload decoder, [None] when the two guards do not both
    pass. *)
Definition decode (manufacturerData : option Buffer.t) : M (option BeaconFields) :=
  match manufacturerData with
  | Some md =>
      if 25 <=? Buffer.length md then
        let* b := read_beacon md in ret (Some b)
      else ret None
  | None => ret None
  end.

Definition on_discover (e : env) (p : Peripheral.t) (now : Z) (iso : string)
  : M unit :=
  let msg := base_msg e p now iso in
  let* beacon := decode (Peripheral.manufacturerData p) in
  let* msg :=
    match beacon with
    | Some b =>
        let* rssi := rssi_identifier e in
        let accuracy := accuracy_of rssi (beacon_measuredPower b) in
        let proximity := classify accuracy in
        ret (with_beacon msg (proxUuid b) (beacon_major b) (beacon_minor b)
               (beacon_measuredPower b) accuracy proximity)
    | None => ret msg
    end in
  emit (node_send (DiscoveryMsg msg)).

(** ** startScan and stopScan (lines 93-133) *)

Definition set_node (f : Node.t -> Node.t) (w : world) : world :=
  mkWorld (f (node w)) (noble_state w) (noble_listeners w)
          (outstanding w) (timeouts w).

Definition set_noble_state (s : string) (w : world) : world :=
  mkWorld (node w) s (noble_listeners w) (outstanding w) (timeouts w).

Definition set_noble_listeners (b : bool) (w : world) : world :=
  mkWorld (node w) (noble_state w) b (outstanding w) (timeouts w).

Definition set_outstanding (l : list callback) (w : world) : world :=
  mkWorld (node w) (noble_state w) (noble_listeners w) l (timeouts w).

Definition set_timeouts (l : list message) (w : world) : world :=
  mkWorld (node w) (noble_state w) (noble_listeners w) (outstanding w) l.

(** A callback that noble keeps in a once-listener: it is called later, not
    inside the call that hands it over. *)
Definition hand_over (c : callback) : M unit :=
  update (fun w => set_outstanding (outstanding w ++ [c]) w).

Definition bool_text (b : bool) : string := if b then "true" else "false".

(** The bodies of the two completion callbacks (lines 105-107, 125-127).
    Neither looks at its arguments. *)
Definition run_callback (c : callback) : M unit :=
  match c with
  | scanStarted =>
      let* n := read node in
      emit (node_log
              ("Scanning for BLEs started. UUIDs: "
               ++ String.concat "," (Node.uuids n)
               ++ " - Duplicates allowed: "
               ++ bool_text (Node.duplicates n)));;
      emit (node_status "green" "dot" "started");;
      update (set_node (Node.set_scanning true))
  | scanStopped =>
      emit (node_log "BLE scanning stopped.");;
      emit (node_status "red" "ring" "stopped");;
      update (set_node (Node.set_scanning false))
  end.

(** [noble.startScanning(uuids, duplicates, callback)] as noble (1.9.1) has
    it. When [noble.state] is 'poweredOn' the callback is kept in a
    once-listener of 'scanStart', which the HCI bindings emit when the
    controller has answered, and the scan is requested. Otherwise noble
    calls the callback at once, inside the call, with an error as its
    argument, and requests nothing. *)
Definition startScanning (uuids : list string) (duplicates : bool)
    (c : callback) : M unit :=
  emit (noble_startScanning uuids duplicates);;
  let* state := read noble_state in
  if String.eqb state "poweredOn" then hand_over c else run_callback c.

(** [noble.stopScanning(callback)]: the callback is always kept in a
    once-listener of 'scanStop'. *)
Definition stopScanning (c : callback) : M unit :=
  emit noble_stopScanning;;
  hand_over c.

Definition startScan (stateChange error : bool) : M unit :=
  let* scanning := read (fun w => Node.scanning (node w)) in
  when (negb (truthy scanning))
    (let* state := read noble_state in
     emit (node_send (StatusMsg error stateChange state));;
     let* n := read node in
     startScanning (Node.uuids n) (Node.duplicates n) scanStarted).

Definition stopScan (stateChange error : bool) : M unit :=
  let* scanning := read (fun w => Node.scanning (node w)) in
  when (truthy scanning)
    (let* state := read noble_state in
     emit (node_send (StatusMsg error stateChange state));;
     stopScanning scanStopped;;
     when error
       (emit (node_warn "BLE scanning stopped due to change in adapter state."))).

(** ** The 'stateChange' listener (lines 136-144) *)

Definition on_stateChange (state : string) : M unit :=
  if String.eqb state "poweredOn" then startScan true false
  else
    let* scanning := read (fun w => Node.scanning (node w)) in
    when (truthy scanning) (stopScan true true).

(** ** The 'input' listener (lines 167-178) *)

(** [v.hasOwnProperty(k)] for the names "payload" and "scan", which no
    primitive and no array owns. Reading a property of null or undefined
    throws; so does calling an own data property named hasOwnProperty, which
    hides the inherited method. *)
Definition hasOwnProperty (v : JS.value) (k : string) : M bool :=
  match v with
  | JS.undefined | JS.null =>
      throw (TypeError "Cannot read property 'hasOwnProperty'")
  | JS.object props =>
      match JS.own "hasOwnProperty" props with
      | Some _ => throw (TypeError "hasOwnProperty is not a function")
      | None =>
          ret (match JS.own k props with Some _ => true | None => false end)
      end
  | JS.boolean _ | JS.num _ | JS.str _ | JS.array _ => ret false
  end.

(** [a && b]: [b] is evaluated only when [a] is true. *)
Definition and_then (a b : M bool) : M bool :=
  let* x := a in if x then b else ret false.

Definition incorrect_input : string :=
  "Incorrect input, ignoring. See the documentation in the info tab. ".

Definition on_input (msg : list (string * JS.value)) : M unit :=
  let payload := JS.get (JS.object msg) "payload" in
  let* shaped :=
    and_then (hasOwnProperty (JS.object msg) "payload")
      (and_then (ret (String.eqb (JS.typeof payload) "object"))
         (hasOwnProperty payload "scan")) in
  let warn := emit (node_warn incorrect_input) in
  if shaped then
    match JS.get payload "scan" with
    | JS.boolean true => startScan false false
    | JS.boolean false => stopScan false false
    | _ => warn
    end
  else warn.

(** ** The 'close' listener (lines 181-188) *)

(** [noble.removeAllListeners()] removes every listener of noble: the two
    the node attached, and the once-listeners in which noble keeps the
    completion callbacks that have not been called yet, that of the
    stopScan just above included. *)
Definition on_close : M unit :=
  stopScan false false;;
  emit noble_removeAllListeners;;
  update (fun w => set_outstanding [] (set_noble_listeners false w)).

(** ** NobleScan (lines 31-164) *)

Module Config.
(** The configuration [n]; [uuids] is [None] when undefined. *)
Record t : Type := mk {
  duplicates : bool;
  uuids : option string
}.
End Config.

(** [s.split(',')]. *)
Fixpoint split_comma (s : string) : list string :=
  match s with
  | EmptyString => [EmptyString]
  | String c rest =>
      if Ascii.eqb c "," then EmptyString :: split_comma rest
      else
        match split_comma rest with
        | first :: others => String c first :: others
        | [] => [String c EmptyString]
        end
  end.

(** Lines 36-40. *)
Definition configured_uuids (n : Config.t) : list string :=
  match Config.uuids n with
  | Some s => if String.eqb s EmptyString then [] else split_comma s
  | None => []
  end.

(** The world in which [NobleScan] starts: nothing is attached to the
    adapter, which is in state [state]. *)
Definition fresh (n : Config.t) (state : string) : world :=
  mkWorld (Node.mk (configured_uuids n) (Config.duplicates n) None)
          state false [] [].

(** Lines 146-164. *)
Definition start_initially : M unit :=
  let* state := read noble_state in
  if String.eqb state "poweredOn" then startScan false false
  else
    let msg := StatusMsg true false state in
    emit (setTimeout 3000);;
    update (fun w => set_timeouts (timeouts w ++ [msg]) w);;
    emit (node_warn ("Unable to start BLE scan. Adapter state: " ++ state)).

Definition NobleScan : M unit :=
  update (set_noble_listeners true);;
  start_initially.

(** ** The event loop

    The adapter's side is noble's, outside this file: noble assigns
    [noble.state] before it emits 'stateChange', and it calls the completion
    callbacks it has kept in a later turn of the event loop. The events
    below are what can happen to the node, in any order. *)

Inductive event : Type :=
(* noble sets noble.state and emits 'stateChange' *)
| StateChange (state : string)
(* noble emits 'discover'; [now] and [iso] are the clock's answers *)
| Discover (p : Peripheral.t) (now : Z) (iso : string)
(* noble calls the oldest outstanding completion callback *)
| Completion
(* a message arrives at the node *)
| Input (msg : list (string * JS.value))
(* the oldest scheduled timeout fires *)
| TimerFires
(* the node is closed *)
| Close.

Definition handle (e : env) (ev : event) : M unit :=
  match ev with
  | StateChange state =>
      update (set_noble_state state);;
      let* attached := read noble_listeners in
      when attached (on_stateChange state)
  | Discover p now iso =>
      let* attached := read noble_listeners in
      when attached (on_discover e p now iso)
  | Completion =>
      let* cs := read outstanding in
      match cs with
      | c :: rest => update (set_outstanding rest);; run_callback c
      | [] => ret tt
      end
  | Input msg => on_input msg
  | TimerFires =>
      let* ts := read timeouts in
      match ts with
      | msg :: rest => update (set_timeouts rest);; emit (node_send msg)
      | [] => ret tt
      end
  | Close => on_close
  end.

(** One turn of the event loop: the trace of the handler, the world it
    leaves, and the exception that left it, if any. *)
Definition step (e : env) (ev : event) (w : world)
  : list action * world * option error :=
  match handle e ev w with
  | (t, w', inl _) => (t, w', None)
  | (t, w', inr x) => (t, w', Some x)
  end.

(** A run: the events one after the other. An exception ends its own
    handler only; the traces are concatenated. *)
Fixpoint run (e : env) (evs : list event) (w : world) : list action * world :=
  match evs with
  | [] => ([], w)
  | ev :: rest =>
      match step e ev w with
      | (t, w', _) =>
          match run e rest w' with
          | (t', w'') => (t ++ t', w'')
          end
      end
  end.

(** The world and the trace after [NobleScan] has run. *)
Definition started (n : Config.t) (state : string) : list action * world :=
  match NobleScan (fresh n state) with
  | (t, w, _) => (t, w)
  end.

Definition is_start (a : action) : bool :=
  match a with noble_startScanning _ _ => true | _ => false end.

Definition is_stop (a : action) : bool :=
  match a with noble_stopScanning => true | _ => false end.

Definition is_send (a : action) : bool :=
  match a with node_send _ => true | _ => false end.

Definition is_warn (a : action) : bool :=
  match a with node_warn _ => true | _ => false end.

Definition count (f : action -> bool) (t : list action) : nat :=
  List.length (filter f t).

(** ** Vocabulary of the statements *)

(** Byte [i] of a buffer as a number, and [n] bytes from index [lo] on. *)
Definition byte_at (md : Buffer.t) (i : nat) : Z := Buffer.value (nth i md x00).

Definition bytes_from (md : Buffer.t) (lo n : nat) : list Z :=
  map (byte_at md) (seq lo n).

(** The signed reading of an unsigned byte value. *)
Definition signed8 (v : Z) : Z := if v <? 128 then v else v - 256.

(** A beacon payload of 25 bytes after any four leading bytes: proximity
    UUID 01..10, major 0x002A, minor 0x0001, measured power 0xC4. *)
Definition beacon_payload (b0 b1 b2 b3 : byte) : Buffer.t :=
  [ b0; b1; b2; b3;
    x01; x02; x03; x04; x05; x06; x07; x08;
    x09; x0a; x0b; x0c; x0d; x0e; x0f; x10;
    x00; x2a; x00; x01; xc4 ].

(** An object with the property [manufacturerData] that line 58 reads, set
    to [md], received at [rssi] dBm. *)
Definition peripheral_with (rssi : Z) (md : option Buffer.t) : Peripheral.t :=
  Peripheral.mk "c0ffee" "c0:ff:ee:00:00:01"
    (Advertisement.mk (Some "tag"%string) [] md) rssi md.

(** A Node process whose global object has no property [rssi]. *)
Definition plain_env : env := mkEnv "host" None.


(** The messages sent by a trace. *)
Definition sent (t : list action) : list message :=
  flat_map (fun a => match a with node_send m => [m] | _ => [] end) t.

(** The commands "scan on" and "scan off". *)
Definition scan_command (b : bool) : list (string * JS.value) :=
  [("payload"%string, JS.object [("scan"%string, JS.boolean b)])].

Definition is_timeout (ev : event) : bool :=
  match ev with TimerFires => true | _ => false end.

(** Runs in which no timeout fires. *)
Definition no_timeout (evs : list event) : Prop :=
  forallb (fun ev => negb (is_timeout ev)) evs = true.

(** The trace and the world of a run that follows [NobleScan]. *)
Definition run_from_start (e : env) (n : Config.t) (state : string)
    (evs : list event) : list action * world :=
  run e evs (snd (started n state)).

(** The world after [NobleScan] has run without configuration on an adapter
    that is powered on. *)
Definition example_world : world :=
  snd (started (Config.mk false None) "poweredOn").

(** The clock's answers at that discovery. *)
Definition example_now : Z := 1400000000000.

Definition example_iso : string := "2014-05-13T16:53:20Z".

(** A request to start: the command "scan on", or the adapter reporting
    that it is powered on. *)
Definition start_request (ev : event) : Prop :=
  ev = Input (scan_command true) \/ ev = StateChange "poweredOn".

(** The manufacturer data is absent or shorter than 25 bytes. *)
Definition short_payload (md : option Buffer.t) : Prop :=
  match md with
  | Some b => Buffer.length b < 25
  | None => True
  end.

(** The trace and the world of one turn of the event loop. *)
Definition step_trace (e : env) (ev : event) (w : world) : list action :=
  fst (fst (step e ev w)).

Definition step_world (e : env) (ev : event) (w : world) : world :=
  snd (fst (step e ev w)).

(** A computation keeps the scheduled timeouts, however it ends. *)
Definition keeps_timeouts {A} (c : M A) : Prop :=
  forall w, timeouts (snd (fst (c w))) = timeouts w.

(** A peripheral as noble delivers it: the manufacturer data [md] is in the
    advertisement, and there is no [peripheral.manufacturerData]. *)
Definition noble_peripheral (rssi : Z) (md : option Buffer.t) : Peripheral.t :=
  Peripheral.mk "c0ffee" "c0:ff:ee:00:00:01"
    (Advertisement.mk (Some "tag"%string) [] md) rssi None.

(** The range of a signed byte. The measured power read at offset 24 is in
    it, and so is the RSSI that a controller reports for a discovery. *)
Definition signed_byte_range (z : Z) : Prop := -128 <= z <= 127.

(** A start request whose completion noble defers: the adapter reports
    that it is powered on, or the command "scan on" arrives while it is. *)
Definition deferred_start_request (w : world) (ev : event) : Prop :=
  ev = StateChange "poweredOn"
  \/ (ev = Input (scan_command true) /\ noble_state w = "poweredOn"%string).

(** ** Vocabulary of the further properties *)

(** An object whose own property "hasOwnProperty" hides the method. *)
Definition hides_method (props : list (string * JS.value)) : bool :=
  match JS.own "hasOwnProperty" props with
  | Some _ => true
  | None => false
  end.

(** The messages on which the test of line 168 cannot be evaluated: the
    message or its payload object hides [hasOwnProperty], or the payload is
    null. *)
Definition unreadable_input (msg : list (string * JS.value)) : bool :=
  hides_method msg
  || match JS.own "payload" msg with
     | Some JS.null => true
     | Some (JS.object props) => hides_method props
     | _ => false
     end.

(** The command a message spells: its own payload is an object whose own
    property scan is a boolean. *)
Definition command_of (msg : list (string * JS.value)) : option bool :=
  match JS.own "payload" msg with
  | Some (JS.object props) =>
      match JS.own "scan" props with
      | Some (JS.boolean b) => Some b
      | _ => None
      end
  | _ => None
  end.

(** A request to stop: the command "scan off", or the adapter reporting a
    state other than "poweredOn". *)
Definition stop_request (ev : event) : Prop :=
  ev = Input (scan_command false)
  \/ exists state, state <> "poweredOn"%string /\ ev = StateChange state.

(** A computation respects a relation between the world before, the trace
    and the world after, however it ends. *)
Definition respects {A} (R : world -> list action -> world -> Prop)
    (c : M A) : Prop :=
  forall w, R w (fst (fst (c w))) (snd (fst (c w))).

(** A call of noble.startScanning, if the action is one, has these
    arguments. *)
Definition start_with (uuids : list string) (duplicates : bool) (a : action)
  : Prop :=
  match a with
  | noble_startScanning u d => u = uuids /\ d = duplicates
  | _ => True
  end.

(** The node's uuids and duplicates are kept, and every start call of the
    trace uses them. *)
Definition config_kept (w : world) (t : list action) (w' : world) : Prop :=
  Node.uuids (node w') = Node.uuids (node w)
  /\ Node.duplicates (node w') = Node.duplicates (node w)
  /\ Forall (start_with (Node.uuids (node w)) (Node.duplicates (node w))) t.

Definition is_discovery (a : action) : bool :=
  match a with node_send (DiscoveryMsg _) => true | _ => false end.

Definition is_status (a : action) : bool :=
  match a with node_send (StatusMsg _ _ _) => true | _ => false end.

Definition status_msg (m : message) : Prop :=
  match m with
  | StatusMsg _ _ _ => True
  | DiscoveryMsg _ => False
  end.

(** The scheduled timeouts hold status messages only; and detached listeners
    stay detached, with no discovery message sent. *)
Definition stays_detached (w : world) (t : list action) (w' : world) : Prop :=
  Forall status_msg (timeouts w) ->
  Forall status_msg (timeouts w')
  /\ (noble_listeners w = false ->
      noble_listeners w' = false /\ count is_discovery t = 0%nat).

(** The scheduled timeouts hold status messages only; and the status
    messages sent are as many as the adapter calls made and the timeouts that
    fired. *)
Definition status_balance (w : world) (t : list action) (w' : world) : Prop :=
  Forall status_msg (timeouts w) ->
  Forall status_msg (timeouts w')
  /\ (count is_status t + List.length (timeouts w')
      = count is_start t + count is_stop t + List.length (timeouts w))%nat.

(** The number of commas in a string. *)
Fixpoint commas (s : string) : nat :=
  match s with
  | EmptyString => 0
  | String c rest => (if Ascii.eqb c "," then 1 else 0) + commas rest
  end.

(** The status message of lines 151-156: an error that is not a state
    change. *)
Definition deferred_msg (m : message) : bool :=
  match m with
  | StatusMsg true false _ => true
  | _ => false
  end.

Definition is_deferred (a : action) : bool :=
  match a with
  | node_send m => deferred_msg m
  | _ => false
  end.

(** The scheduled timeouts hold such messages only, and each one sent
    leaves the timeouts. *)
Definition deferred_once (w : world) (t : list action) (w' : world) : Prop :=
  forallb deferred_msg (timeouts w) = true ->
  forallb deferred_msg (timeouts w') = true
  /\ (count is_deferred t + List.length (timeouts w')
      = List.length (timeouts w))%nat.

(** * Properties *)

(** ** Buffers *)

Lemma value_range (b : byte) : 0 <= Buffer.value b <= 255.
Proof.
  unfold Buffer.value. pose proof (Byte.to_N_bounded b) as H. lia.
Qed.

Lemma land_shiftl_low (hi lo : Z) :
  0 <= lo < 256 -> Z.land (Z.shiftl hi 8) lo = 0.
Proof.
  intros Hlo. apply Z.bits_inj'. intros n Hn.
  rewrite Z.land_spec, Z.bits_0.
  destruct (Z.ltb_spec n 8) as [Hlt | Hge].
  - rewrite Z.shiftl_spec_low by assumption. reflexivity.
  - replace (Z.testbit lo n) with false; [apply andb_false_r |].
    symmetry. destruct (Z.eq_dec lo 0) as [-> | Hnz]; [apply Z.bits_0 |].
    apply Z.bits_above_log2; [lia |].
    apply Z.log2_lt_pow2; [lia |].
    apply Z.lt_le_trans with (2 ^ 8); [simpl; lia |].
    apply Z.pow_le_mono_r; lia.
Qed.

(** The big-endian read is the usual positional value. *)
Lemma lor_shiftl_byte (hi lo : Z) :
  0 <= lo < 256 -> Z.lor (Z.shiftl hi 8) lo = 256 * hi + lo.
Proof.
  intros Hlo.
  rewrite <- Z.lxor_lor by (apply land_shiftl_low; assumption).
  rewrite <- Z.add_nocarry_lxor by (apply land_shiftl_low; assumption).
  rewrite Z.shiftl_mul_pow2 by lia. change (2 ^ 8) with 256. lia.
Qed.

Lemma hex_of_byte (b : byte) :
  exists h l,
    Hex.digit (Buffer.hexdigit (Z.shiftr (Buffer.value b) 4)) = Some h
    /\ Hex.digit (Buffer.hexdigit (Z.land (Buffer.value b) 15)) = Some l
    /\ 16 * h + l = Buffer.value b.
Proof.
  destruct b; vm_compute; eexists; eexists; repeat split.
Qed.

(** [toString('hex')] writes two lowercase hex digits for each byte, and
    nothing else. *)
Lemma read_toString_hex (buf : Buffer.t) :
  Hex.read (Buffer.toString_hex buf) = Some (map Buffer.value buf).
Proof.
  induction buf as [| b rest IH]; [reflexivity |].
  destruct (hex_of_byte b) as (h & l & Hh & Hl & Hv).
  cbn [Buffer.toString_hex Hex.read map].
  rewrite Hh, Hl, IH, Hv. reflexivity.
Qed.

Lemma length_toString_hex (buf : Buffer.t) :
  String.length (Buffer.toString_hex buf) = (2 * List.length buf)%nat.
Proof.
  induction buf as [| b rest IH]; [reflexivity |].
  cbn [Buffer.toString_hex String.length List.length]. rewrite IH. lia.
Qed.

(** [readInt8] is the two's-complement reading of the byte. *)
Lemma signed_byte (b : byte) :
  (if Z.land (Buffer.value b) 128 =? 0 then Buffer.value b
   else (255 - Buffer.value b + 1) * -1)
  = (if Buffer.value b <? 128 then Buffer.value b else Buffer.value b - 256).
Proof.
  destruct b; reflexivity.
Qed.

Lemma get_byte_at (md : Buffer.t) (i : nat) :
  (i < List.length md)%nat -> Buffer.get md (Z.of_nat i) = Some (byte_at md i).
Proof.
  intros Hi. unfold Buffer.get, byte_at.
  destruct (Z.ltb_spec (Z.of_nat i) 0) as [Hneg | _]; [lia |].
  rewrite Nat2Z.id, (nth_error_nth' md x00 Hi). reflexivity.
Qed.

Lemma readUInt16BE_value (md : Buffer.t) (i : nat) :
  (i + 1 < List.length md)%nat ->
  Buffer.readUInt16BE md (Z.of_nat i)
  = Some (256 * byte_at md i + byte_at md (i + 1)).
Proof.
  intros Hi. unfold Buffer.readUInt16BE.
  replace (Z.of_nat i + 1) with (Z.of_nat (i + 1)) by lia.
  rewrite !get_byte_at by lia.
  rewrite lor_shiftl_byte; [reflexivity |].
  unfold byte_at. pose proof (value_range (nth (i + 1) md x00)). lia.
Qed.

Lemma readInt8_value (md : Buffer.t) (i : nat) :
  (i < List.length md)%nat ->
  Buffer.readInt8 md (Z.of_nat i) = Some (signed8 (byte_at md i)).
Proof.
  intros Hi. unfold Buffer.readInt8. rewrite get_byte_at by assumption.
  unfold byte_at, signed8. rewrite signed_byte. reflexivity.
Qed.

Lemma bytes_from_slice (md : Buffer.t) (lo n : nat) :
  (lo + n <= List.length md)%nat ->
  map Buffer.value (firstn n (skipn lo md)) = bytes_from md lo n.
Proof.
  intros H. unfold bytes_from.
  apply (nth_ext _ _ 0 0).
  - rewrite !length_map, length_firstn, length_skipn, length_seq. lia.
  - intros i Hi.
    rewrite length_map, length_firstn, length_skipn in Hi.
    rewrite (nth_indep _ 0 (Buffer.value x00))
      by (rewrite length_map, length_firstn, length_skipn; lia).
    rewrite map_nth, nth_firstn, nth_skipn.
    destruct (Nat.ltb_spec i n) as [Hlt | Hge]; [| lia].
    rewrite (nth_indep _ 0 (byte_at md 0)) by (rewrite length_map, length_seq; lia).
    rewrite map_nth, seq_nth by lia. reflexivity.
Qed.

(** The decoder on a payload of at least 25 bytes, field by field. *)
Lemma decode_long (md : Buffer.t) (w : world) :
  25 <= Buffer.length md ->
  decode (Some md) w =
    ([], w,
     inl (Some (mkBeacon
                  (Buffer.toString_hex (firstn 16 (skipn 4 md)))
                  (256 * byte_at md 20 + byte_at md 21)
                  (256 * byte_at md 22 + byte_at md 23)
                  (signed8 (byte_at md 24))))).
Proof.
  intros H.
  assert (E : (25 <=? Buffer.length md) = true) by (apply Z.leb_le; exact H).
  assert (L : (25 <= List.length md)%nat) by (unfold Buffer.length in H; lia).
  unfold decode, read_beacon. rewrite E.
  change 20 with (Z.of_nat 20). change 22 with (Z.of_nat 22).
  change 24 with (Z.of_nat 24).
  rewrite !readUInt16BE_value, readInt8_value by lia.
  reflexivity.
Qed.

(** Without a payload of 25 bytes the decoder returns nothing and does not
    throw. *)
Lemma decode_short (md : option Buffer.t) (w : world) :
  match md with Some b => Buffer.length b < 25 | None => True end ->
  decode md w = ([], w, inl None).
Proof.
  destruct md as [b |]; intros H; [| reflexivity].
  unfold decode. destruct (Z.leb_spec 25 (Buffer.length b)); [lia | reflexivity].
Qed.

(** ** The 'discover' listener *)

(** With a payload of 25 bytes or more and [rssi] bound, the listener sends
    the message with the six beacon properties. *)
Lemma on_discover_beacon (e : env) (r : Z) (p : Peripheral.t) (md : Buffer.t)
    (now : Z) (iso : string) (w : world) :
  global_rssi e = Some r ->
  Peripheral.manufacturerData p = Some md ->
  25 <= Buffer.length md ->
  on_discover e p now iso w =
    ([node_send
        (DiscoveryMsg
           (with_beacon (base_msg e p now iso)
              (Buffer.toString_hex (firstn 16 (skipn 4 md)))
              (256 * byte_at md 20 + byte_at md 21)
              (256 * byte_at md 22 + byte_at md 23)
              (signed8 (byte_at md 24))
              (accuracy_of r (signed8 (byte_at md 24)))
              (classify (accuracy_of r (signed8 (byte_at md 24))))))],
     w, inl tt).
Proof.
  intros Hr Hmd Hlen.
  unfold on_discover, bind. rewrite Hmd, (decode_long md w Hlen).
  cbn [beacon_measuredPower beacon_major beacon_minor proxUuid].
  unfold rssi_identifier. rewrite Hr. reflexivity.
Qed.

(** With a payload of 25 bytes or more and no binding of [rssi], line 66
    throws before anything is sent. *)
Lemma on_discover_unbound (e : env) (p : Peripheral.t) (md : Buffer.t)
    (now : Z) (iso : string) (w : world) :
  global_rssi e = None ->
  Peripheral.manufacturerData p = Some md ->
  25 <= Buffer.length md ->
  on_discover e p now iso w = ([], w, inr (ReferenceError "rssi")).
Proof.
  intros Hr Hmd Hlen.
  unfold on_discover, bind. rewrite Hmd, (decode_long md w Hlen).
  unfold rssi_identifier. rewrite Hr. reflexivity.
Qed.

Lemma on_discover_short (e : env) (p : Peripheral.t) (now : Z) (iso : string)
    (w : world) :
  short_payload (Peripheral.manufacturerData p) ->
  on_discover e p now iso w
  = ([node_send (DiscoveryMsg (base_msg e p now iso))], w, inl tt).
Proof.
  intros H. unfold on_discover, bind.
  rewrite (decode_short _ w H). reflexivity.
Qed.

Lemma rssi_is_not_declared : ~ In "rssi"%string declared_names.
Proof.
  unfold declared_names. simpl. intros H.
  repeat (destruct H as [H | H]; [discriminate H |]). exact H.
Qed.

Lemma accuracy_of_nonzero (r mp : Z) :
  mp <> 0 ->
  accuracy_of r mp = Fin (Rpower 12 (1.5 * (IZR r / IZR mp - 1))).
Proof.
  intros H. unfold accuracy_of, Num.div.
  destruct (Z.eqb_spec mp 0) as [E | _]; [contradiction |].
  cbn [Num.sub Num.mul Num.pow]. do 2 f_equal. lra.
Qed.


(** C4: on a payload of at least 25 bytes the decoder returns the beacon
    fields: the proximity UUID is bytes 4..19 in lowercase hex without
    separators (32 digits that read back as those bytes), major and minor are
    the big-endian unsigned values of bytes 20..21 and 22..23, and the
    measured power is the signed reading of byte 24. For the payload with
    bytes 4..19 = 01..10, then 00 2A, 00 01, C4, whatever the four leading
    bytes, the fields are "0102030405060708090a0b0c0d0e0f10", 42, 1, -60. *)
Theorem C4_decoder_fields :
  (forall (md : Buffer.t) (w : world),
      25 <= Buffer.length md ->
      exists b : BeaconFields,
        decode (Some md) w = ([], w, inl (Some b))
        /\ String.length (proxUuid b) = 32%nat
        /\ Hex.read (proxUuid b) = Some (bytes_from md 4 16)
        /\ beacon_major b = 256 * byte_at md 20 + byte_at md 21
        /\ beacon_minor b = 256 * byte_at md 22 + byte_at md 23
        /\ beacon_measuredPower b = signed8 (byte_at md 24)
        /\ 0 <= beacon_major b <= 65535
        /\ 0 <= beacon_minor b <= 65535
        /\ -128 <= beacon_measuredPower b <= 127)
  /\ (forall (b0 b1 b2 b3 : byte) (w : world),
         decode (Some (beacon_payload b0 b1 b2 b3)) w
         = ([], w,
            inl (Some (mkBeacon "0102030405060708090a0b0c0d0e0f10"
                         42 1 (-60))))).
Proof.
  split.
  - intros md w H.
    assert (L : (25 <= List.length md)%nat) by (unfold Buffer.length in H; lia).
    eexists. split; [apply decode_long; exact H |].
    cbn [proxUuid beacon_major beacon_minor beacon_measuredPower].
    pose proof (value_range (nth 20 md x00)) as R20.
    pose proof (value_range (nth 21 md x00)) as R21.
    pose proof (value_range (nth 22 md x00)) as R22.
    pose proof (value_range (nth 23 md x00)) as R23.
    pose proof (value_range (nth 24 md x00)) as R24.
    repeat split; try reflexivity; unfold byte_at, signed8; try lia.
    + rewrite length_toString_hex, length_firstn, length_skipn. lia.
    + rewrite read_toString_hex, bytes_from_slice by lia. reflexivity.
    + destruct (Z.ltb_spec (Buffer.value (nth 24 md x00)) 128); lia.
    + destruct (Z.ltb_spec (Buffer.value (nth 24 md x00)) 128); lia.
  - intros b0 b1 b2 b3 w. rewrite decode_long by (vm_compute; discriminate).
    reflexivity.
Qed.

Lemma C4_decoder_fields_witness :
  exists b : BeaconFields,
    decode (Some (beacon_payload x4c x00 x02 x15)) example_world
    = ([], example_world, inl (Some b))
    /\ String.length (proxUuid b) = 32%nat
    /\ Hex.read (proxUuid b)
       = Some (bytes_from (beacon_payload x4c x00 x02 x15) 4 16)
    /\ beacon_major b = 42
    /\ beacon_minor b = 1
    /\ beacon_measuredPower b = -60
    /\ 0 <= beacon_major b <= 65535
    /\ 0 <= beacon_minor b <= 65535
    /\ -128 <= beacon_measuredPower b <= 127.
Proof.
  apply (proj1 C4_decoder_fields (beacon_payload x4c x00 x02 x15)
           example_world).
  vm_compute. discriminate.
Defined.

(** C5: when the manufacturer data is absent or shorter than 25 bytes the
    decoder returns no beacon fields without throwing, and the listener
    sends the message with none of the beacon and proximity properties. *)
Theorem C5_short_payload_no_beacon (e : env) (p : Peripheral.t) (now : Z)
    (iso : string) (w : world) :
  short_payload (Peripheral.manufacturerData p) ->
  decode (Peripheral.manufacturerData p) w = ([], w, inl None)
  /\ exists m : Discovery.t,
       on_discover e p now iso w = ([node_send (DiscoveryMsg m)], w, inl tt)
       /\ Discovery.manufacturerUuid m = None
       /\ Discovery.major m = None
       /\ Discovery.minor m = None
       /\ Discovery.measuredPower m = None
       /\ Discovery.accuracy m = None
       /\ Discovery.proximity m = None.
Proof.
  intros H. split; [apply decode_short; exact H |].
  exists (base_msg e p now iso).
  split; [apply on_discover_short; exact H |]. repeat split.
Qed.

Lemma C5_short_payload_no_beacon_witness :
  short_payload (Some (firstn 24 (beacon_payload x4c x00 x02 x15)))
  /\ decode (Some (firstn 24 (beacon_payload x4c x00 x02 x15))) example_world
     = ([], example_world, inl None)
  /\ exists m : Discovery.t,
       on_discover plain_env
         (peripheral_with (-60)
            (Some (firstn 24 (beacon_payload x4c x00 x02 x15))))
         example_now example_iso example_world
       = ([node_send (DiscoveryMsg m)], example_world, inl tt)
       /\ Discovery.manufacturerUuid m = None
       /\ Discovery.major m = None
       /\ Discovery.minor m = None
       /\ Discovery.measuredPower m = None
       /\ Discovery.accuracy m = None
       /\ Discovery.proximity m = None.
Proof.
  split; [reflexivity |].
  apply (C5_short_payload_no_beacon plain_env
           (peripheral_with (-60)
              (Some (firstn 24 (beacon_payload x4c x00 x02 x15))))
           example_now example_iso example_world).
  reflexivity.
Defined.

(** C6: the zone of a real accuracy follows the thresholds in order: below
    0 it is unknown, otherwise below 0.5 immediate, otherwise below 4.0
    near, otherwise far; 0.5 itself is near and 4.0 itself is far. *)
Theorem C6_zone_thresholds (a : R) :
  ((a < 0)%R -> classify (Fin a) = "unknown"%string)
  /\ ((0 <= a < 0.5)%R -> classify (Fin a) = "immediate"%string)
  /\ ((0.5 <= a < 4.0)%R -> classify (Fin a) = "near"%string)
  /\ ((4.0 <= a)%R -> classify (Fin a) = "far"%string)
  /\ classify (Fin 0.5) = "near"%string
  /\ classify (Fin 4.0) = "far"%string.
Proof.
  unfold classify, Num.lt.
  repeat split; intros;
    repeat match goal with
           | |- context [Rlt_dec ?x ?y] => destruct (Rlt_dec x y)
           end;
    try reflexivity; exfalso; lra.
Qed.

Lemma C6_zone_thresholds_witness :
  classify (Fin (-1)) = "unknown"%string
  /\ classify (Fin 0.25) = "immediate"%string
  /\ classify (Fin 2) = "near"%string
  /\ classify (Fin 10) = "far"%string.
Proof.
  split; [| split; [| split]].
  - apply (proj1 (C6_zone_thresholds (-1))). lra.
  - apply (proj1 (proj2 (C6_zone_thresholds 0.25))). lra.
  - apply (proj1 (proj2 (proj2 (C6_zone_thresholds 2)))). lra.
  - apply (proj1 (proj2 (proj2 (proj2 (C6_zone_thresholds 10))))). lra.
Defined.




(** C2: every discovery that noble delivers makes the listener send exactly
    one message, without throwing, whatever the advertisement holds as
    manufacturer data (none, a malformed or short payload, or a beacon):
    the message carries the peripheral's data and none of the beacon and
    proximity properties. *)
Theorem C2_one_message_per_discovery (e : env) (p : Peripheral.t) (now : Z)
    (iso : string) (w : world) :
  delivered_by_noble p ->
  noble_listeners w = true ->
  exists m : Discovery.t,
    step e (Discover p now iso) w = ([node_send (DiscoveryMsg m)], w, None)
    /\ Discovery.peripheralUuid m = Peripheral.uuid p
    /\ Discovery.address m = Peripheral.address p
    /\ Discovery.rssi m = Peripheral.rssi p
    /\ Discovery.advertisement m = Peripheral.advertisement p
    /\ Discovery.manufacturerUuid m = None
    /\ Discovery.major m = None
    /\ Discovery.minor m = None
    /\ Discovery.measuredPower m = None
    /\ Discovery.accuracy m = None
    /\ Discovery.proximity m = None.
Proof.
  intros Hp Hl. exists (base_msg e p now iso). split; [| repeat split].
  unfold step, handle, bind, read, when. rewrite Hl. cbv iota beta.
  rewrite on_discover_short by (unfold delivered_by_noble in Hp; rewrite Hp; exact I).
  reflexivity.
Qed.

Lemma C2_one_message_per_discovery_witness :
  exists m : Discovery.t,
    step plain_env
      (Discover (noble_peripheral (-60) (Some (beacon_payload x4c x00 x02 x15)))
         example_now example_iso)
      example_world
    = ([node_send (DiscoveryMsg m)], example_world, None)
    /\ Discovery.peripheralUuid m = "c0ffee"%string
    /\ Discovery.address m = "c0:ff:ee:00:00:01"%string
    /\ Discovery.rssi m = -60
    /\ Discovery.advertisement m
       = Advertisement.mk (Some "tag"%string) []
           (Some (beacon_payload x4c x00 x02 x15))
    /\ Discovery.manufacturerUuid m = None
    /\ Discovery.major m = None
    /\ Discovery.minor m = None
    /\ Discovery.measuredPower m = None
    /\ Discovery.accuracy m = None
    /\ Discovery.proximity m = None.
Proof.
  apply (C2_one_message_per_discovery plain_env
           (noble_peripheral (-60) (Some (beacon_payload x4c x00 x02 x15)))
           example_now example_iso example_world).
  - reflexivity.
  - reflexivity.
Defined.

(** ** Runs *)

Lemma run_cons (e : env) (ev : event) (rest : list event) (w : world) :
  run e (ev :: rest) w
  = (step_trace e ev w ++ fst (run e rest (step_world e ev w)),
     snd (run e rest (step_world e ev w))).
Proof.
  unfold step_trace, step_world. cbn [run].
  destruct (step e ev w) as [[t w'] x]. cbn [fst snd].
  destruct (run e rest w') as [t' w'']. reflexivity.
Qed.

Lemma run_app (e : env) (evs1 evs2 : list event) (w : world) :
  run e (evs1 ++ evs2) w
  = (fst (run e evs1 w) ++ fst (run e evs2 (snd (run e evs1 w))),
     snd (run e evs2 (snd (run e evs1 w)))).
Proof.
  revert w. induction evs1 as [| ev rest IH]; intros w.
  - cbn [app run fst snd]. destruct (run e evs2 w). reflexivity.
  - rewrite <- app_comm_cons, !run_cons, IH. cbn [fst snd].
    rewrite app_assoc. reflexivity.
Qed.

Lemma count_app (f : action -> bool) (t1 t2 : list action) :
  count f (t1 ++ t2) = (count f t1 + count f t2)%nat.
Proof.
  unfold count. rewrite filter_app, length_app. reflexivity.
Qed.

(** ** What a handler leaves alone *)

Lemma keeps_ret {A} (a : A) : keeps_timeouts (ret a).
Proof. intros w. reflexivity. Qed.

Lemma keeps_throw {A} (x : error) : keeps_timeouts (@throw A x).
Proof. intros w. reflexivity. Qed.

Lemma keeps_emit (a : action) : keeps_timeouts (emit a).
Proof. intros w. reflexivity. Qed.

Lemma keeps_read {A} (f : world -> A) : keeps_timeouts (read f).
Proof. intros w. reflexivity. Qed.

Lemma keeps_bind {A B} (c : M A) (k : A -> M B) :
  keeps_timeouts c -> (forall a, keeps_timeouts (k a)) ->
  keeps_timeouts (bind c k).
Proof.
  intros Hc Hk w. unfold bind. specialize (Hc w).
  destruct (c w) as [[t1 w1] [a | x]]; cbn [fst snd] in *; [| exact Hc].
  specialize (Hk a w1). destruct (k a w1) as [[t2 w2] r]. cbn [fst snd] in *.
  congruence.
Qed.

Lemma keeps_update (f : world -> world) :
  (forall w, timeouts (f w) = timeouts w) -> keeps_timeouts (update f).
Proof. intros H w. apply H. Qed.

Lemma keeps_when (b : bool) (c : M unit) :
  keeps_timeouts c -> keeps_timeouts (when b c).
Proof. intros H. destruct b; [exact H | apply keeps_ret]. Qed.

Create HintDb keeps.
#[local] Hint Resolve keeps_ret keeps_throw keeps_emit keeps_read : keeps.

Ltac keeps_step :=
  first
    [ solve [auto with keeps]
    | apply keeps_bind; [| intros ?]
    | apply keeps_when
    | apply keeps_update; intros ?; reflexivity
    | match goal with
      | |- keeps_timeouts (if ?b then _ else _) => destruct b
      | |- keeps_timeouts (match ?x with _ => _ end) => destruct x
      end ].

Ltac keeps := repeat keeps_step.

Lemma keeps_startScan (sc er : bool) : keeps_timeouts (startScan sc er).
Proof. unfold startScan, hand_over. keeps. Qed.

Lemma keeps_stopScan (sc er : bool) : keeps_timeouts (stopScan sc er).
Proof. unfold stopScan, hand_over. keeps. Qed.

#[local] Hint Resolve keeps_startScan keeps_stopScan : keeps.

Lemma keeps_on_discover (e : env) (p : Peripheral.t) (now : Z) (iso : string) :
  keeps_timeouts (on_discover e p now iso).
Proof.
  unfold on_discover, decode, read_beacon, checked, rssi_identifier. keeps.
Qed.

Lemma keeps_hasOwnProperty (v : JS.value) (k : string) :
  keeps_timeouts (hasOwnProperty v k).
Proof. unfold hasOwnProperty. keeps. Qed.

#[local] Hint Resolve keeps_hasOwnProperty : keeps.

Lemma keeps_on_input (msg : list (string * JS.value)) :
  keeps_timeouts (on_input msg).
Proof. unfold on_input, and_then. keeps. Qed.

Lemma keeps_on_close : keeps_timeouts on_close.
Proof. unfold on_close. keeps. Qed.

Lemma keeps_run_callback (c : callback) : keeps_timeouts (run_callback c).
Proof. unfold run_callback. keeps. Qed.

Lemma keeps_on_stateChange (s : string) : keeps_timeouts (on_stateChange s).
Proof. unfold on_stateChange. keeps. Qed.

(** Only the firing of a timeout changes the scheduled timeouts. *)
Lemma step_keeps_timeouts (e : env) (ev : event) (w : world) :
  is_timeout ev = false ->
  timeouts (step_world e ev w) = timeouts w.
Proof.
  intros Hev.
  assert (K : keeps_timeouts (handle e ev)).
  { destruct ev; try discriminate Hev; cbn [handle].
    - pose proof (keeps_on_stateChange state). keeps.
    - pose proof (keeps_on_discover e p now iso). keeps.
    - pose proof keeps_run_callback. keeps.
    - apply keeps_on_input.
    - apply keeps_on_close. }
  specialize (K w). unfold step_world, step.
  destruct (handle e ev w) as [[t w'] [u | x]]; exact K.
Qed.

Lemma run_keeps_timeouts (e : env) (evs : list event) (w : world) :
  no_timeout evs -> timeouts (snd (run e evs w)) = timeouts w.
Proof.
  unfold no_timeout. revert w.
  induction evs as [| ev rest IH]; intros w H; [reflexivity |].
  cbn [forallb] in H. apply andb_prop in H as [Hev Hrest].
  rewrite run_cons. cbn [snd]. rewrite IH by exact Hrest.
  apply step_keeps_timeouts. destruct (is_timeout ev); [discriminate | reflexivity].
Qed.

(** A timeout that fires calls node.send with the msg it closed over. *)
Lemma step_timeout (e : env) (w : world) (m : message) (rest : list message) :
  timeouts w = m :: rest ->
  step e TimerFires w = ([node_send m], set_timeouts rest w, None).
Proof.
  intros H. unfold step, handle, bind, read. rewrite H. reflexivity.
Qed.

(** ** Start-up *)

Lemma started_off (n : Config.t) (state : string) :
  state <> "poweredOn"%string ->
  started n state
  = ([setTimeout 3000;
      node_warn ("Unable to start BLE scan. Adapter state: " ++ state)],
     mkWorld (Node.mk (configured_uuids n) (Config.duplicates n) None)
       state true [] [StatusMsg true false state]).
Proof.
  intros H. apply String.eqb_neq in H.
  unfold started, NobleScan, start_initially, bind, read, update, fresh.
  cbn [noble_state set_noble_listeners]. rewrite H. reflexivity.
Qed.

(** ** The scan controller *)

Ltac open_world w :=
  destruct w as [[? ? [[|]|]] ? ? ? ?];
  cbn [node Node.scanning truthy noble_listeners outstanding timeouts] in *;
  subst; try discriminate.

(** [cbn] evaluates a comparison of two string literals, and leaves alone
    the comparison of a state that is a variable. *)
#[local] Arguments String.eqb : simpl nomatch.

Ltac with_state E :=
  unfold step_trace, step_world, step, handle, on_input, and_then,
    hasOwnProperty, on_stateChange, startScan, stopScan, startScanning,
    stopScanning, run_callback, hand_over, bind, read, update, emit, when, ret;
  cbn -[String.append String.concat];
  rewrite ?E;
  cbn -[String.append String.concat].

(** A start request on an adapter that is, or hereby becomes, powered on,
    in a world whose flag is not set: one call of noble.startScanning, whose
    callback joins the outstanding ones; the flag stays as it was. *)
Lemma start_request_unset (e : env) (ev : event) (w : world) :
  deferred_start_request w ev ->
  noble_listeners w = true ->
  truthy (Node.scanning (node w)) = false ->
  count is_start (step_trace e ev w) = 1%nat
  /\ Node.scanning (node (step_world e ev w)) = Node.scanning (node w)
  /\ noble_listeners (step_world e ev w) = true
  /\ outstanding (step_world e ev w) = outstanding w ++ [scanStarted]
  /\ noble_state (step_world e ev w) = "poweredOn"%string.
Proof.
  intros [-> | (-> & Hs)] Hl Hf;
    destruct w as [[u d [[|]|]] s l o t];
    cbn [node Node.scanning truthy noble_listeners noble_state] in *;
    subst; try discriminate; repeat split.
Qed.

(** A start request in a world whose flag is set does nothing. *)
Lemma start_request_set (e : env) (ev : event) (w : world) :
  start_request ev ->
  truthy (Node.scanning (node w)) = true ->
  step_trace e ev w = []
  /\ Node.scanning (node (step_world e ev w)) = Node.scanning (node w).
Proof.
  intros [-> | ->] Hs; open_world w;
    match goal with
    | |- context [mkWorld _ _ ?l _ _] => destruct l
    end; repeat split.
Qed.

Lemma start_requests_unset (e : env) (reqs : list event) (w : world) :
  Forall start_request reqs ->
  noble_listeners w = true ->
  truthy (Node.scanning (node w)) = false ->
  noble_state w = "poweredOn"%string ->
  count is_start (fst (run e reqs w)) = List.length reqs.
Proof.
  intros H. revert w.
  induction H as [| ev rest Hev Hrest IH]; intros w Hl Hs Hon.
  - reflexivity.
  - assert (Hd : deferred_start_request w ev)
      by (destruct Hev as [-> | ->]; [right; split; [reflexivity | exact Hon]
                                     | left; reflexivity]).
    destruct (start_request_unset e ev w Hd Hl Hs)
      as (Hc & Hflag & Hl' & _ & Hon').
    rewrite run_cons. cbn [fst]. rewrite count_app, Hc, IH.
    + reflexivity.
    + exact Hl'.
    + rewrite Hflag. exact Hs.
    + exact Hon'.
Qed.

Lemma start_requests_set (e : env) (reqs : list event) (w : world) :
  Forall start_request reqs ->
  truthy (Node.scanning (node w)) = true ->
  count is_start (fst (run e reqs w)) = 0%nat.
Proof.
  intros H. revert w. induction H as [| ev rest Hev Hrest IH]; intros w Hs.
  - reflexivity.
  - destruct (start_request_set e ev w Hev Hs) as (Ht & Hflag).
    rewrite run_cons. cbn [fst]. rewrite count_app, Ht, IH.
    + reflexivity.
    + rewrite Hflag. exact Hs.
Qed.

(** The completion of a start sets the flag and calls nothing on noble. *)
Lemma completion_of_start (e : env) (w : world) :
  outstanding w = [scanStarted] ->
  count is_start (step_trace e Completion w) = 0%nat
  /\ Node.scanning (node (step_world e Completion w)) = Some true.
Proof.
  intros H. destruct w as [n s l o t]. cbn [outstanding] in H. subst o.
  split; reflexivity.
Qed.

(** "Scan on" while the adapter is not powered on: noble is called once and
    calls back at once, so the flag is set when the command returns. *)
Lemma scan_on_without_power (e : env) (w : world) :
  noble_state w <> "poweredOn"%string ->
  truthy (Node.scanning (node w)) = false ->
  count is_start (step_trace e (Input (scan_command true)) w) = 1%nat
  /\ Node.scanning (node (step_world e (Input (scan_command true)) w))
     = Some true.
Proof.
  intros Hs Hf. apply String.eqb_neq in Hs.
  destruct w as [[u d [[|]|]] s l o t]; try discriminate Hf;
    cbn [noble_state] in Hs; with_state Hs; split; reflexivity.
Qed.

(** C3, as amended: the guard of startScan is the flag that the completion
    callback sets. On an adapter that is (or hereby becomes) powered on,
    noble calls back later: after a start request whose completion has been
    delivered, further start requests, with no stop in between, issue no
    start call, one call in all; but start requests that arrive while the
    start is outstanding each issue a call of their own. On an adapter that
    is not powered on, noble calls back inside the call, so after a "scan
    on" command further start requests issue no call: one call in all. *)
Theorem C3_start_guard_is_confirmed_flag (e : env) (w : world)
    (req : event) (later : list event) :
  noble_listeners w = true ->
  truthy (Node.scanning (node w)) = false ->
  outstanding w = [] ->
  Forall start_request later ->
  (deferred_start_request w req ->
   count is_start (fst (run e (req :: Completion :: later) w)) = 1%nat
   /\ count is_start (fst (run e (req :: later) w)) = S (List.length later))
  /\ (noble_state w <> "poweredOn"%string ->
      count is_start (fst (run e (Input (scan_command true) :: later) w))
      = 1%nat).
Proof.
  intros Hl Hs Ho Hlater. split.
  - intros Hreq.
    destruct (start_request_unset e req w Hreq Hl Hs)
      as (Hc & Hflag & Hl' & Hout & Hon).
    split.
    + rewrite Ho in Hout. cbn [app] in Hout.
      destruct (completion_of_start e _ Hout) as (Hc' & Hflag').
      rewrite !run_cons. cbn [fst]. rewrite !count_app, Hc, Hc'.
      rewrite start_requests_set; [reflexivity | exact Hlater |].
      rewrite Hflag'. reflexivity.
    + rewrite run_cons. cbn [fst]. rewrite count_app, Hc.
      rewrite start_requests_unset; [reflexivity | exact Hlater | exact Hl' | | exact Hon].
      rewrite Hflag. exact Hs.
  - intros Hoff.
    destruct (scan_on_without_power e w Hoff Hs) as (Hc & Hflag).
    rewrite run_cons. cbn [fst]. rewrite count_app, Hc.
    rewrite start_requests_set; [reflexivity | exact Hlater |].
    rewrite Hflag. reflexivity.
Qed.

Lemma C3_start_guard_is_confirmed_flag_witness :
  (deferred_start_request (snd (started (Config.mk false None) "poweredOff"))
     (StateChange "poweredOn") ->
   count is_start
     (fst (run plain_env
             [StateChange "poweredOn"; Completion; Input (scan_command true)]
             (snd (started (Config.mk false None) "poweredOff")))) = 1%nat
   /\ count is_start
        (fst (run plain_env
                [StateChange "poweredOn"; Input (scan_command true)]
                (snd (started (Config.mk false None) "poweredOff")))) = 2%nat)
  /\ (noble_state (snd (started (Config.mk false None) "poweredOff"))
      <> "poweredOn"%string ->
      count is_start
        (fst (run plain_env
                [Input (scan_command true); Input (scan_command true)]
                (snd (started (Config.mk false None) "poweredOff")))) = 1%nat).
Proof.
  apply (C3_start_guard_is_confirmed_flag plain_env
           (snd (started (Config.mk false None) "poweredOff"))
           (StateChange "poweredOn") [Input (scan_command true)]).
  - reflexivity.
  - reflexivity.
  - reflexivity.
  - repeat constructor.
Defined.

(** C3 as stated fails on an adapter that is powered on: the adapter
    reports "poweredOn", which requests a start, and a "scan on" command
    arrives before noble has completed that start, with no stop between
    them. There are two calls of noble.startScanning. *)
Lemma C3_counterexample :
  fst (run_from_start plain_env (Config.mk false None) "poweredOff"
         [StateChange "poweredOn"; Input (scan_command true)])
  = [ node_send (StatusMsg false true "poweredOn");
      noble_startScanning [] false;
      node_send (StatusMsg false false "poweredOn");
      noble_startScanning [] false ]
  /\ count is_start
       (fst (run_from_start plain_env (Config.mk false None) "poweredOff"
               [StateChange "poweredOn"; Input (scan_command true)]))
     = 2%nat.
Proof.
  split; reflexivity.
Qed.

(** C8: closing the node, in any world, calls stopScan(false, false) and then
    noble.removeAllListeners(). With the scanning flag set there is exactly
    one call of noble.stopScanning, after a status message that is neither
    an error nor a state change; with the flag unset there is none. In both
    cases the listeners are removed: later notifications of the adapter
    reach no handler. *)
Theorem C8_close_stops_and_detaches (e : env) (w : world) :
  exists (t : list action) (w' : world),
    step e Close w = (t, w', None)
    /\ count is_stop t = (if truthy (Node.scanning (node w)) then 1 else 0)%nat
    /\ sent t = (if truthy (Node.scanning (node w))
                 then [StatusMsg false false (noble_state w)] else [])
    /\ count (fun a => match a with noble_removeAllListeners => true
                                  | _ => false end) t = 1%nat
    /\ noble_listeners w' = false
    /\ (forall p now iso, step_trace e (Discover p now iso) w' = [])
    /\ (forall state, step_trace e (StateChange state) w' = []).
Proof.
  destruct w as [[u d [[|]|]] s l o t]; do 2 eexists;
    (split; [reflexivity |]); cbn [node Node.scanning truthy];
    repeat split.
Qed.

(** The adapter's state is the one it reported last, attached listeners or
    not. *)
Lemma state_change_sets_state (e : env) (state : string) (w : world) :
  noble_state (step_world e (StateChange state) w) = state.
Proof.
  destruct (String.eqb state "poweredOn") eqn:E.
  - apply String.eqb_eq in E. subst state.
    destruct w as [[u d [[|]|]] s [|] o t]; reflexivity.
  - destruct w as [[u d [[|]|]] s [|] o t]; with_state E; reflexivity.
Qed.

(** ** The deferred status message *)

(** After a start-up with the adapter not powered on, and any events other
    than the timeout itself, the scheduled function still holds the msg built
    at start-up. *)
Lemma deferred_msg_pending (e : env) (n : Config.t) (state : string)
    (evs : list event) :
  state <> "poweredOn"%string ->
  no_timeout evs ->
  timeouts (snd (run_from_start e n state evs)) = [StatusMsg true false state].
Proof.
  intros Hs Hevs. unfold run_from_start.
  rewrite run_keeps_timeouts by exact Hevs.
  rewrite started_off by exact Hs. reflexivity.
Qed.

Lemma no_timeout_app (evs1 evs2 : list event) :
  no_timeout evs1 -> no_timeout evs2 -> no_timeout (evs1 ++ evs2).
Proof.
  unfold no_timeout. intros H1 H2. rewrite forallb_app, H1, H2. reflexivity.
Qed.

(** C7, as amended: when the adapter is not powered on at start-up, the node
    warns at once and schedules, 3000 ms later, the sending of a status
    message flagged as an error and not as a state change. Closing the node
    does not cancel it: whatever happens before and after the close, when
    the timeout fires the message is sent. *)
Theorem C7_deferred_status_survives_close (e : env) (n : Config.t)
    (state : string) (before after : list event) :
  state <> "poweredOn"%string ->
  no_timeout before ->
  no_timeout after ->
  fst (started n state)
  = [ setTimeout 3000;
      node_warn ("Unable to start BLE scan. Adapter state: " ++ state) ]
  /\ step_trace e TimerFires
       (snd (run_from_start e n state (before ++ Close :: after)))
     = [ node_send (StatusMsg true false state) ].
Proof.
  intros Hs Hb Ha. split.
  - rewrite started_off by exact Hs. reflexivity.
  - assert (Hevs : no_timeout (before ++ Close :: after))
      by (apply no_timeout_app; [exact Hb | exact Ha]).
    pose proof (deferred_msg_pending e n state _ Hs Hevs) as Hp.
    unfold step_trace. rewrite (step_timeout e _ _ _ Hp). reflexivity.
Qed.

Lemma C7_deferred_status_survives_close_witness :
  fst (started (Config.mk false None) "poweredOff")
  = [ setTimeout 3000;
      node_warn "Unable to start BLE scan. Adapter state: poweredOff" ]
  /\ step_trace plain_env TimerFires
       (snd (run_from_start plain_env (Config.mk false None) "poweredOff"
               ([Input (scan_command true)] ++ Close :: [StateChange "poweredOn"])))
     = [ node_send (StatusMsg true false "poweredOff") ].
Proof.
  apply (C7_deferred_status_survives_close plain_env (Config.mk false None)
           "poweredOff" [Input (scan_command true)] [StateChange "poweredOn"]).
  - discriminate.
  - reflexivity.
  - reflexivity.
Defined.

(** C7 as stated fails: the node starts on an adapter that is powered off,
    is closed before the timeout fires, and the status message is sent all
    the same when it fires. *)
Lemma C7_counterexample :
  fst (run_from_start plain_env (Config.mk false None) "poweredOff"
         [Close; TimerFires])
  = [ noble_removeAllListeners; node_send (StatusMsg true false "poweredOff") ].
Proof.
  reflexivity.
Qed.

(** C10: when the adapter is not powered on at start-up, the status message
    sent when the timeout fires carries the state read at start-up. Whatever
    events come before, and whatever state the adapter reports last, the
    message is the one built at start-up, while noble.state is by then the
    state reported last. *)
Theorem C10_deferred_status_reports_startup_state (e : env) (n : Config.t)
    (state : string) (evs : list event) (latest : string) :
  state <> "poweredOn"%string ->
  no_timeout evs ->
  noble_state
    (snd (run_from_start e n state (evs ++ [StateChange latest]))) = latest
  /\ step_trace e TimerFires
       (snd (run_from_start e n state (evs ++ [StateChange latest])))
     = [ node_send (StatusMsg true false state) ]
  /\ step_trace e TimerFires (snd (run_from_start e n state evs))
     = [ node_send (StatusMsg true false state) ].
Proof.
  intros Hs Hevs.
  assert (Hevs' : no_timeout (evs ++ [StateChange latest]))
    by (apply no_timeout_app; [exact Hevs | reflexivity]).
  split; [| split].
  - unfold run_from_start. rewrite run_app. cbn [snd].
    rewrite run_cons. cbn [run snd].
    apply state_change_sets_state.
  - pose proof (deferred_msg_pending e n state _ Hs Hevs') as Hp.
    unfold step_trace. rewrite (step_timeout e _ _ _ Hp). reflexivity.
  - pose proof (deferred_msg_pending e n state _ Hs Hevs) as Hp.
    unfold step_trace. rewrite (step_timeout e _ _ _ Hp). reflexivity.
Qed.

Lemma C10_deferred_status_reports_startup_state_witness :
  noble_state
    (snd (run_from_start plain_env (Config.mk false None) "poweredOff"
            ([StateChange "unauthorized"] ++ [StateChange "poweredOn"])))
  = "poweredOn"%string
  /\ step_trace plain_env TimerFires
       (snd (run_from_start plain_env (Config.mk false None) "poweredOff"
               ([StateChange "unauthorized"] ++ [StateChange "poweredOn"])))
     = [ node_send (StatusMsg true false "poweredOff") ]
  /\ step_trace plain_env TimerFires
       (snd (run_from_start plain_env (Config.mk false None) "poweredOff"
               [StateChange "unauthorized"]))
     = [ node_send (StatusMsg true false "poweredOff") ].
Proof.
  apply (C10_deferred_status_reports_startup_state plain_env
           (Config.mk false None) "poweredOff" [StateChange "unauthorized"]
           "poweredOn").
  - discriminate.
  - reflexivity.
Defined.

(** ** Inbound messages *)

(** C9, at an input on which the code departs from it: a message whose
    payload is null. [typeof null] is "object", so line 168 goes on to read
    [hasOwnProperty] of null and throws a TypeError; line 177 is not reached
    and no warning is given. Nothing else happens either: no action, and the
    world is as before. *)
Theorem C9_null_payload_throws (e : env) (w : world) :
  step e (Input [("payload"%string, JS.null)]) w
  = ([], w, Some (TypeError "Cannot read property 'hasOwnProperty'")).
Proof.
  reflexivity.
Qed.

(** The two examples of the specification: the field has another name, or
    the value of [scan] is not a boolean. Both are refused with the warning
    of line 177 and nothing else. *)
Lemma misnamed_or_mistyped_command_warns (e : env) (w : world) :
  step e (Input [("payload"%string,
                  JS.object [("enableScan"%string, JS.str "yes")])]) w
  = ([node_warn incorrect_input], w, None)
  /\ step e (Input [("enableScan"%string, JS.str "yes")]) w
     = ([node_warn incorrect_input], w, None)
  /\ step e (Input [("payload"%string,
                     JS.object [("scan"%string, JS.str "yes")])]) w
     = ([node_warn incorrect_input], w, None).
Proof.
  repeat split.
Qed.

(** Whenever the 'input' listener returns on a message that is not a
    command, it has warned and done nothing else. *)
Lemma unrecognised_input_warns (e : env) (msg : list (string * JS.value))
    (w : world) :
  (forall b, JS.get (JS.get (JS.object msg) "payload") "scan" <> JS.boolean b) ->
  snd (step e (Input msg) w) = None ->
  step e (Input msg) w = ([node_warn incorrect_input], w, None).
Proof.
  unfold step, handle, on_input, and_then, hasOwnProperty, bind.
  cbn [JS.get].
  destruct (JS.own "hasOwnProperty" msg); [discriminate |].
  destruct (JS.own "payload" msg) as [payload |]; [| reflexivity].
  destruct payload as [| | b | z | s | props | items]; cbn;
    try reflexivity; try discriminate.
  destruct (JS.own "hasOwnProperty" props); [discriminate |].
  destruct (JS.own "scan" props) as [v |]; [| reflexivity].
  destruct v as [| | b | z | s | ps | items]; try reflexivity.
  intros Hb. exfalso. apply (Hb b). reflexivity.
Qed.

(** * Further properties *)

(** ** The accuracy and the zone *)

Lemma Rpower_pos (x y : R) : (0 < Rpower x y)%R.
Proof. unfold Rpower. apply exp_pos. Qed.

(** X1: the accuracy of line 66 is never below zero, whatever the two
    operands, so the first branch of lines 69-77 is never taken: no message
    carries the zone "unknown". *)
Theorem accuracy_never_unknown (rssi measuredPower : Z) :
  Num.lt (accuracy_of rssi measuredPower) 0 = false
  /\ classify (accuracy_of rssi measuredPower) <> "unknown"%string.
Proof.
  assert (H : Num.lt (accuracy_of rssi measuredPower) 0 = false).
  { unfold accuracy_of, Num.div.
    destruct (measuredPower =? 0);
      [destruct (0 <? rssi); [reflexivity | destruct (rssi <? 0)] |];
      cbn [Num.sub Num.mul Num.pow Num.lt]; try reflexivity.
    - destruct (Rlt_dec 0 0) as [F | _]; [lra | reflexivity].
    - match goal with
      | |- context [Rlt_dec (Rpower _ ?y) 0] =>
          destruct (Rlt_dec (Rpower 12.0 y) 0) as [F | _];
          [pose proof (Rpower_pos 12.0 y); lra | reflexivity]
      end. }
  split; [exact H |].
  unfold classify. rewrite H.
  destruct (Num.lt _ 0.5); [discriminate |].
  destruct (Num.lt _ 4.0); discriminate.
Qed.

Lemma ratio_decreasing (r1 r2 mp : Z) :
  mp < 0 -> r1 < r2 -> (IZR r2 / IZR mp < IZR r1 / IZR mp)%R.
Proof.
  intros Hmp Hr. apply IZR_lt in Hmp. apply IZR_lt in Hr.
  pose proof (Rinv_neg _ Hmp) as Hinv. unfold Rdiv. nra.
Qed.

(** X2: for operands in the range of a signed byte and a negative measured
    power, the accuracy is finite and strictly decreasing in the RSSI: a
    weaker signal gives a larger figure. At rssi = measuredPower it is
    exactly 1, and the zone there is "near". *)
Theorem accuracy_decreasing_in_rssi (r1 r2 mp : Z) :
  signed_byte_range r1 ->
  signed_byte_range r2 ->
  signed_byte_range mp ->
  mp < 0 ->
  r1 < r2 ->
  exists a1 a2 : R,
    accuracy_of r1 mp = Fin a1
    /\ accuracy_of r2 mp = Fin a2
    /\ (a2 < a1)%R
    /\ accuracy_of mp mp = Fin 1
    /\ classify (accuracy_of mp mp) = "near"%string.
Proof.
  intros _ _ _ Hmp Hr.
  assert (Hnz : mp <> 0) by lia.
  rewrite !accuracy_of_nonzero by exact Hnz.
  do 2 eexists. split; [reflexivity |]. split; [reflexivity |].
  split.
  - apply Rpower_lt; [lra |].
    pose proof (ratio_decreasing r1 r2 mp Hmp Hr). lra.
  - assert (E : Rpower 12 (1.5 * (IZR mp / IZR mp - 1)) = 1%R).
    { replace (1.5 * (IZR mp / IZR mp - 1))%R with 0%R.
      - apply Rpower_O. lra.
      - assert (IZR mp <> 0%R) by (apply not_0_IZR; exact Hnz).
        field. assumption. }
    rewrite E. split; [reflexivity |].
    unfold classify, Num.lt.
    repeat match goal with
           | |- context [Rlt_dec ?x ?y] => destruct (Rlt_dec x y)
           end; try reflexivity; exfalso; lra.
Qed.

Lemma accuracy_decreasing_in_rssi_witness :
  exists a1 a2 : R,
    accuracy_of (-80) (-60) = Fin a1
    /\ accuracy_of (-70) (-60) = Fin a2
    /\ (a2 < a1)%R
    /\ accuracy_of (-60) (-60) = Fin 1
    /\ classify (accuracy_of (-60) (-60)) = "near"%string.
Proof.
  apply (accuracy_decreasing_in_rssi (-80) (-70) (-60));
    unfold signed_byte_range; lia.
Defined.

(** X3: a measured power of zero makes line 66 divide by zero. No
    exception follows: a negative RSSI gives the accuracy 0 and the zone
    "immediate", a positive one gives infinity and "far", and an RSSI of
    zero gives NaN, which fails every comparison and ends in "far". *)
Theorem zero_measured_power (rssi : Z) :
  (rssi < 0 ->
   accuracy_of rssi 0 = Fin 0
   /\ classify (accuracy_of rssi 0) = "immediate"%string)
  /\ (0 < rssi ->
      accuracy_of rssi 0 = PosInfinity
      /\ classify (accuracy_of rssi 0) = "far"%string)
  /\ (rssi = 0 ->
      accuracy_of rssi 0 = NaN
      /\ classify (accuracy_of rssi 0) = "far"%string).
Proof.
  unfold accuracy_of, Num.div. cbn [Z.eqb].
  split; [| split]; intros Hsign.
  - destruct (Z.ltb_spec 0 rssi); [lia |].
    destruct (Z.ltb_spec rssi 0); [| lia].
    cbn [Num.sub Num.mul Num.pow]. split; [reflexivity |].
    unfold classify, Num.lt.
    repeat match goal with
           | |- context [Rlt_dec ?x ?y] => destruct (Rlt_dec x y)
           end; try reflexivity; exfalso; lra.
  - destruct (Z.ltb_spec 0 rssi); [split; reflexivity | lia].
  - subst rssi. split; reflexivity.
Qed.

Lemma zero_measured_power_witness :
  accuracy_of (-60) 0 = Fin 0
  /\ classify (accuracy_of (-60) 0) = "immediate"%string.
Proof.
  apply (proj1 (zero_measured_power (-60))). lia.
Defined.

(** ** The decoder and the listener *)

(** X4: the decoder reads bytes 4 to 24 and nothing else. The four leading
    bytes (where a beacon carries its company identifier and type) are not
    examined, nor is anything after byte 24: two payloads that agree on
    bytes 4..24 decode to the same fields, and both decode. *)
Theorem decode_reads_bytes_4_to_24 (lead lead' body rest rest' : Buffer.t)
    (w : world) :
  List.length lead = 4%nat ->
  List.length lead' = 4%nat ->
  List.length body = 21%nat ->
  exists b : BeaconFields,
    decode (Some (lead ++ body ++ rest)) w = ([], w, inl (Some b))
    /\ decode (Some (lead' ++ body ++ rest')) w = ([], w, inl (Some b)).
Proof.
  intros Hl Hl' Hb.
  assert (L : forall l r : Buffer.t,
             List.length l = 4%nat -> 25 <= Buffer.length (l ++ body ++ r)).
  { intros l r H. unfold Buffer.length. rewrite !length_app, H, Hb. lia. }
  rewrite !decode_long by (apply L; assumption).
  do 4 (destruct lead as [| ? lead]; [discriminate Hl |]).
  destruct lead; [| discriminate Hl].
  do 4 (destruct lead' as [| ? lead']; [discriminate Hl' |]).
  destruct lead'; [| discriminate Hl'].
  do 21 (destruct body as [| ? body]; [discriminate Hb |]).
  destruct body; [| discriminate Hb].
  eexists. split; reflexivity.
Qed.

Lemma decode_reads_bytes_4_to_24_witness :
  exists b : BeaconFields,
    decode (Some ([x4c; x00; x02; x15]
                  ++ skipn 4 (beacon_payload x00 x00 x00 x00) ++ []))
      example_world
    = ([], example_world, inl (Some b))
    /\ decode (Some ([xff; xff; xff; xff]
                     ++ skipn 4 (beacon_payload x00 x00 x00 x00)
                     ++ [x01; x02; x03]))
         example_world
       = ([], example_world, inl (Some b)).
Proof.
  apply (decode_reads_bytes_4_to_24 [x4c; x00; x02; x15] [xff; xff; xff; xff]
           (skipn 4 (beacon_payload x00 x00 x00 x00)) [] [x01; x02; x03]
           example_world); reflexivity.
Defined.

(** X5: the 'discover' listener has two outcomes only, for every
    peripheral. Either it returns after exactly one node.send, of a message
    that carries the peripheral's uuid, address, name and RSSI, the host name
    and the two clock readings; or it throws the ReferenceError of line 66
    before sending anything, which needs a payload of 25 bytes or more and
    no binding of [rssi]. The Buffer reads of lines 62-64 never fail, and
    the world is left as it was. *)
Theorem on_discover_outcomes (e : env) (p : Peripheral.t) (now : Z)
    (iso : string) (w : world) :
  (exists m : Discovery.t,
      on_discover e p now iso w = ([node_send (DiscoveryMsg m)], w, inl tt)
      /\ Discovery.peripheralUuid m = Peripheral.uuid p
      /\ Discovery.address m = Peripheral.address p
      /\ Discovery.localName m
         = Advertisement.localName (Peripheral.advertisement p)
      /\ Discovery.rssi m = Peripheral.rssi p
      /\ Discovery.detectedBy m = hostname e
      /\ Discovery.detectedAt m = now
      /\ Discovery.timestamp m = iso)
  \/ (on_discover e p now iso w = ([], w, inr (ReferenceError "rssi"))
      /\ global_rssi e = None
      /\ exists md : Buffer.t,
           Peripheral.manufacturerData p = Some md
           /\ 25 <= Buffer.length md).
Proof.
  destruct (Peripheral.manufacturerData p) as [md |] eqn:Hmd.
  - destruct (Z.le_gt_cases 25 (Buffer.length md)) as [Hlen | Hlen].
    + destruct (global_rssi e) as [r |] eqn:Hr.
      * left. eexists.
        split; [apply (on_discover_beacon e r p md); assumption |].
        repeat split.
      * right. split; [apply (on_discover_unbound e p md); assumption |].
        split; [reflexivity |]. exists md. split; [reflexivity | exact Hlen].
    + left. eexists. split.
      * apply on_discover_short. rewrite Hmd. exact Hlen.
      * repeat split.
  - left. eexists. split.
    + apply on_discover_short. rewrite Hmd. exact I.
    + repeat split.
Qed.

(** ** Commands *)

(** X6: what the 'input' listener makes of every message. A message on
    which line 168 cannot be evaluated (its payload is null, or the message
    or its payload object has an own property hasOwnProperty) makes the
    listener throw a TypeError, with no action and no change. Otherwise a
    message whose own payload is an object with an own boolean scan is
    handled as the bare command { payload: { scan: b } }, whatever else the
    message and the payload hold; and every other message gets the warning
    of line 177 and nothing else. *)
Theorem input_outcomes (e : env) (msg : list (string * JS.value)) (w : world) :
  (unreadable_input msg = true ->
   exists what, step e (Input msg) w = ([], w, Some (TypeError what)))
  /\ (unreadable_input msg = false ->
      forall b, command_of msg = Some b ->
                step e (Input msg) w = step e (Input (scan_command b)) w)
  /\ (unreadable_input msg = false ->
      command_of msg = None ->
      step e (Input msg) w = ([node_warn incorrect_input], w, None)).
Proof.
  unfold unreadable_input, command_of, hides_method.
  unfold step, handle, on_input, and_then, hasOwnProperty, bind.
  cbn [JS.get].
  destruct (JS.own "hasOwnProperty" msg) as [m |].
  { split; [intros _; eexists; reflexivity |].
    split; intros H; discriminate H. }
  destruct (JS.own "payload" msg) as [payload |].
  2: { split; [intros H; discriminate H |].
       split; [intros _ b H; discriminate H | reflexivity]. }
  destruct payload as [| | b | z | s | props | items];
    cbn [orb JS.typeof String.eqb Ascii.eqb Bool.eqb ret JS.get];
    try (split; [intros H; discriminate H |];
         split; [intros _ b' H; discriminate H | reflexivity]).
  { split; [intros _; eexists; reflexivity |].
    split; intros H; discriminate H. }
  destruct (JS.own "hasOwnProperty" props) as [m |].
  { split; [intros _; eexists; reflexivity |].
    split; intros H; discriminate H. }
  split; [intros H; discriminate H |].
  destruct (JS.own "scan" props) as [v |].
  2: { split; [intros _ b H; discriminate H | reflexivity]. }
  destruct v as [| | b | z | s | ps | items];
    try (split; [intros _ b' H; discriminate H | reflexivity]).
  split; [| intros _ H; discriminate H].
  intros _ b' H. injection H as <-. destruct b; reflexivity.
Qed.

Lemma input_outcomes_witness :
  (exists what,
      step plain_env
        (Input [("payload"%string,
                 JS.object [("hasOwnProperty"%string, JS.num 1);
                            ("scan"%string, JS.boolean true)])])
        example_world
      = ([], example_world, Some (TypeError what)))
  /\ step plain_env
       (Input [("topic"%string, JS.str "ble");
               ("payload"%string,
                JS.object [("by"%string, JS.str "ui");
                           ("scan"%string, JS.boolean false)])])
       example_world
     = step plain_env (Input (scan_command false)) example_world
  /\ step plain_env
       (Input [("payload"%string, JS.array [JS.boolean true])]) example_world
     = ([node_warn incorrect_input], example_world, None).
Proof.
  split; [| split].
  - apply (proj1 (input_outcomes plain_env _ example_world)). reflexivity.
  - apply (proj1 (proj2 (input_outcomes plain_env _ example_world)));
      reflexivity.
  - apply (proj2 (proj2 (input_outcomes plain_env _ example_world)));
      reflexivity.
Defined.

(** X7: what a command does. A command never throws. One that does not
    apply ("scan on" with the flag set, "scan off" with it unset) is dropped
    in silence: no action, no warning, no change. "Scan off" with the flag
    set sends one status message (not an error, not a state change, with the
    adapter's current state) and calls noble.stopScanning; the flag stays
    set until the completion. "Scan on" with the flag unset sends the same
    kind of message and calls noble.startScanning with the node's uuids and
    duplicates. On a powered-on adapter that is all, and the flag waits for
    the completion. On an adapter that is not powered on, noble calls back
    inside the call: the node logs that scanning has started, shows the
    status "started" and sets the flag, although noble has started
    nothing. *)
Theorem command_effects (e : env) (b : bool) (w : world) :
  snd (step e (Input (scan_command b)) w) = None
  /\ (Bool.eqb b (truthy (Node.scanning (node w))) = true ->
      step e (Input (scan_command b)) w = ([], w, None))
  /\ (b = false ->
      truthy (Node.scanning (node w)) = true ->
      step e (Input (scan_command b)) w
      = ([ node_send (StatusMsg false false (noble_state w));
           noble_stopScanning ],
         set_outstanding (outstanding w ++ [scanStopped]) w, None))
  /\ (b = true ->
      truthy (Node.scanning (node w)) = false ->
      noble_state w = "poweredOn"%string ->
      step e (Input (scan_command b)) w
      = ([ node_send (StatusMsg false false (noble_state w));
           noble_startScanning (Node.uuids (node w))
             (Node.duplicates (node w)) ],
         set_outstanding (outstanding w ++ [scanStarted]) w, None))
  /\ (b = true ->
      truthy (Node.scanning (node w)) = false ->
      noble_state w <> "poweredOn"%string ->
      step e (Input (scan_command b)) w
      = ([ node_send (StatusMsg false false (noble_state w));
           noble_startScanning (Node.uuids (node w))
             (Node.duplicates (node w));
           node_log ("Scanning for BLEs started. UUIDs: "
                     ++ String.concat "," (Node.uuids (node w))
                     ++ " - Duplicates allowed: "
                     ++ bool_text (Node.duplicates (node w)));
           node_status "green" "dot" "started" ],
         set_node (Node.set_scanning true) w, None)).
Proof.
  destruct (String.eqb (noble_state w) "poweredOn") eqn:E.
  - apply String.eqb_eq in E.
    destruct w as [[u d [[|]|]] s l o t]; cbn [noble_state] in E; subst s;
      destruct b; repeat split; intros; try discriminate; try reflexivity;
      exfalso; auto.
  - pose proof E as N. apply String.eqb_neq in N.
    destruct w as [[u d [[|]|]] s l o t]; cbn [noble_state] in *;
      destruct b; repeat split; intros; try discriminate; try contradiction;
      with_state E; reflexivity.
Qed.

Lemma command_effects_witness :
  step plain_env (Input (scan_command true))
    (snd (started (Config.mk false None) "poweredOff"))
  = ([ node_send (StatusMsg false false "poweredOff");
       noble_startScanning [] false;
       node_log "Scanning for BLEs started. UUIDs:  - Duplicates allowed: false";
       node_status "green" "dot" "started" ],
     set_node (Node.set_scanning true)
       (snd (started (Config.mk false None) "poweredOff")),
     None).
Proof.
  apply (proj2 (proj2 (proj2 (proj2
           (command_effects plain_env true
              (snd (started (Config.mk false None) "poweredOff"))))))).
  - reflexivity.
  - reflexivity.
  - discriminate.
Defined.

(** ** Changes of the adapter's state *)

Ltac eval_handlers E :=
  unfold step_trace, step_world, step, handle, on_stateChange, startScan,
    stopScan, run_callback, hand_over, bind, read, update, emit, when, ret;
  cbn -[String.eqb String.append]; rewrite ?E; cbn -[String.eqb String.append].

(** X8: when the adapter reports a state other than "poweredOn" while the
    scanning flag is not set, the node does nothing: no stop call, no status
    message, no warning. Only noble.state has changed. *)
Theorem departure_while_stopped (e : env) (state : string) (w : world) :
  state <> "poweredOn"%string ->
  truthy (Node.scanning (node w)) = false ->
  step e (StateChange state) w = ([], set_noble_state state w, None).
Proof.
  intros Hs Hf. apply String.eqb_neq in Hs.
  destruct w as [[u d [[|]|]] s [|] o t]; try discriminate Hf;
    eval_handlers Hs; reflexivity.
Qed.

Lemma departure_while_stopped_witness :
  step plain_env (StateChange "poweredOff") example_world
  = ([], set_noble_state "poweredOff" example_world, None).
Proof.
  apply (departure_while_stopped plain_env "poweredOff" example_world).
  - discriminate.
  - reflexivity.
Defined.

(** X9: when the adapter reports a state other than "poweredOn" while the
    scanning flag is set, the node sends one status message flagged both as
    an error and as a state change, carrying the state just reported, then
    calls noble.stopScanning, then warns. The flag stays set until noble
    calls the completion back. *)
Theorem departure_while_scanning (e : env) (state : string) (w : world) :
  state <> "poweredOn"%string ->
  noble_listeners w = true ->
  truthy (Node.scanning (node w)) = true ->
  step e (StateChange state) w
  = ([ node_send (StatusMsg true true state);
       noble_stopScanning;
       node_warn "BLE scanning stopped due to change in adapter state." ],
     set_outstanding (outstanding w ++ [scanStopped])
       (set_noble_state state w),
     None).
Proof.
  intros Hs Hl Hf. apply String.eqb_neq in Hs.
  destruct w as [[u d [[|]|]] s l o t]; try discriminate Hf.
  cbn [noble_listeners] in Hl. subst l.
  eval_handlers Hs. reflexivity.
Qed.

Lemma departure_while_scanning_witness :
  step plain_env (StateChange "poweredOff")
    (snd (run plain_env [Completion] example_world))
  = ([ node_send (StatusMsg true true "poweredOff");
       noble_stopScanning;
       node_warn "BLE scanning stopped due to change in adapter state." ],
     set_outstanding [scanStopped]
       (set_noble_state "poweredOff"
          (snd (run plain_env [Completion] example_world))),
     None).
Proof.
  apply (departure_while_scanning plain_env "poweredOff"
           (snd (run plain_env [Completion] example_world))).
  - discriminate.
  - reflexivity.
  - reflexivity.
Defined.

(** X10: the adapter leaves "poweredOn" while the node scans and then comes
    back. If noble has confirmed the stop before the adapter is powered on
    again, the node starts scanning again: one stop call, one start call, and
    the flag is set once the start is confirmed. If the adapter is powered on
    again before the stop is confirmed, the flag is still set when
    startScan tests it: no start call is made, and once the stop is
    confirmed the node is left not scanning, with nothing outstanding. *)
Theorem power_cycle (e : env) (state : string) (w : world) :
  state <> "poweredOn"%string ->
  noble_listeners w = true ->
  truthy (Node.scanning (node w)) = true ->
  outstanding w = [] ->
  (count is_stop
     (fst (run e [StateChange state; Completion; StateChange "poweredOn";
                  Completion] w)) = 1%nat
   /\ count is_start
        (fst (run e [StateChange state; Completion; StateChange "poweredOn";
                     Completion] w)) = 1%nat
   /\ Node.scanning
        (node (snd (run e [StateChange state; Completion;
                           StateChange "poweredOn"; Completion] w)))
      = Some true)
  /\ (count is_stop
        (fst (run e [StateChange state; StateChange "poweredOn"; Completion]
                w)) = 1%nat
      /\ count is_start
           (fst (run e [StateChange state; StateChange "poweredOn";
                        Completion] w)) = 0%nat
      /\ Node.scanning
           (node (snd (run e [StateChange state; StateChange "poweredOn";
                              Completion] w)))
         = Some false
      /\ outstanding
           (snd (run e [StateChange state; StateChange "poweredOn";
                        Completion] w)) = []).
Proof.
  intros Hs Hl Hf Ho.
  destruct w as [[u d [[|]|]] s l o t]; try discriminate Hf.
  cbn [noble_listeners outstanding] in Hl, Ho. subst l o.
  rewrite !run_cons. unfold step_trace, step_world.
  rewrite !(departure_while_scanning e state) by (assumption || reflexivity).
  repeat split.
Qed.

Lemma power_cycle_witness :
  count is_stop
    (fst (run plain_env
            [StateChange "poweredOff"; StateChange "poweredOn"; Completion]
            (snd (run plain_env [Completion] example_world)))) = 1%nat
  /\ count is_start
       (fst (run plain_env
               [StateChange "poweredOff"; StateChange "poweredOn"; Completion]
               (snd (run plain_env [Completion] example_world)))) = 0%nat
  /\ Node.scanning
       (node (snd (run plain_env
                     [StateChange "poweredOff"; StateChange "poweredOn";
                      Completion]
                     (snd (run plain_env [Completion] example_world)))))
     = Some false
  /\ outstanding
       (snd (run plain_env
               [StateChange "poweredOff"; StateChange "poweredOn"; Completion]
               (snd (run plain_env [Completion] example_world)))) = [].
Proof.
  apply (fun H1 H2 H3 H4 =>
           proj2 (power_cycle plain_env "poweredOff"
                    (snd (run plain_env [Completion] example_world))
                    H1 H2 H3 H4)).
  - discriminate.
  - reflexivity.
  - reflexivity.
  - reflexivity.
Defined.

(** ** Stop requests *)

Lemma stop_request_set (e : env) (ev : event) (w : world) :
  stop_request ev ->
  noble_listeners w = true ->
  truthy (Node.scanning (node w)) = true ->
  count is_stop (step_trace e ev w) = 1%nat
  /\ Node.scanning (node (step_world e ev w)) = Node.scanning (node w)
  /\ noble_listeners (step_world e ev w) = true
  /\ outstanding (step_world e ev w) = outstanding w ++ [scanStopped].
Proof.
  intros [-> | (state & Hs & ->)] Hl Hf.
  - open_world w; repeat split.
  - unfold step_trace, step_world.
    rewrite (departure_while_scanning e state w Hs Hl Hf).
    cbn [fst snd]. open_world w. repeat split.
Qed.

Lemma stop_request_unset (e : env) (ev : event) (w : world) :
  stop_request ev ->
  truthy (Node.scanning (node w)) = false ->
  step_trace e ev w = []
  /\ Node.scanning (node (step_world e ev w)) = Node.scanning (node w).
Proof.
  intros [-> | (state & Hs & ->)] Hf.
  - open_world w; repeat split.
  - unfold step_trace, step_world.
    rewrite (departure_while_stopped e state w Hs Hf). split; reflexivity.
Qed.

Lemma stop_requests_set (e : env) (reqs : list event) (w : world) :
  Forall stop_request reqs ->
  noble_listeners w = true ->
  truthy (Node.scanning (node w)) = true ->
  count is_stop (fst (run e reqs w)) = List.length reqs.
Proof.
  intros H. revert w. induction H as [| ev rest Hev Hrest IH]; intros w Hl Hf.
  - reflexivity.
  - destruct (stop_request_set e ev w Hev Hl Hf) as (Hc & Hflag & Hl' & _).
    rewrite run_cons. cbn [fst]. rewrite count_app, Hc, IH.
    + reflexivity.
    + exact Hl'.
    + rewrite Hflag. exact Hf.
Qed.

Lemma stop_requests_unset (e : env) (reqs : list event) (w : world) :
  Forall stop_request reqs ->
  truthy (Node.scanning (node w)) = false ->
  count is_stop (fst (run e reqs w)) = 0%nat.
Proof.
  intros H. revert w. induction H as [| ev rest Hev Hrest IH]; intros w Hf.
  - reflexivity.
  - destruct (stop_request_unset e ev w Hev Hf) as (Ht & Hflag).
    rewrite run_cons. cbn [fst]. rewrite count_app, Ht, IH.
    + reflexivity.
    + rewrite Hflag. exact Hf.
Qed.

Lemma completion_of_stop (e : env) (w : world) :
  outstanding w = [scanStopped] ->
  count is_stop (step_trace e Completion w) = 0%nat
  /\ Node.scanning (node (step_world e Completion w)) = Some false.
Proof.
  intros H. destruct w as [n s l o t]. cbn [outstanding] in H. subst o.
  split; reflexivity.
Qed.

(** X11: the guard of stopScan is the same flag, which only the completion
    of noble.stopScanning clears. While the node scans, a stop request (the
    command "scan off", or the adapter leaving "poweredOn") followed by its
    completion makes every later stop request a no-op: one stop call in all.
    Stop requests that arrive before the completion each call
    noble.stopScanning again. *)
Theorem stop_guard_is_confirmed_flag (e : env) (w : world) (req : event)
    (later : list event) :
  noble_listeners w = true ->
  truthy (Node.scanning (node w)) = true ->
  outstanding w = [] ->
  stop_request req ->
  Forall stop_request later ->
  count is_stop (fst (run e (req :: Completion :: later) w)) = 1%nat
  /\ count is_stop (fst (run e (req :: later) w)) = S (List.length later).
Proof.
  intros Hl Hf Ho Hreq Hlater. split.
  - destruct (stop_request_set e req w Hreq Hl Hf) as (Hc & _ & _ & Hout).
    rewrite Ho in Hout. cbn [app] in Hout.
    destruct (completion_of_stop e _ Hout) as (Hc' & Hflag).
    rewrite !run_cons. cbn [fst]. rewrite !count_app, Hc, Hc'.
    rewrite stop_requests_unset; [reflexivity | exact Hlater |].
    rewrite Hflag. reflexivity.
  - apply (stop_requests_set e (req :: later) w); auto.
Qed.

Lemma stop_guard_is_confirmed_flag_witness :
  count is_stop
    (fst (run plain_env
            [Input (scan_command false); Completion; StateChange "poweredOff"]
            (snd (run plain_env [Completion] example_world)))) = 1%nat
  /\ count is_stop
       (fst (run plain_env
               [Input (scan_command false); StateChange "poweredOff"]
               (snd (run plain_env [Completion] example_world)))) = 2%nat.
Proof.
  apply (stop_guard_is_confirmed_flag plain_env
           (snd (run plain_env [Completion] example_world))
           (Input (scan_command false)) [StateChange "poweredOff"]).
  - reflexivity.
  - reflexivity.
  - reflexivity.
  - left. reflexivity.
  - constructor; [| constructor].
    right. exists "poweredOff"%string. split; [discriminate | reflexivity].
Defined.

(** ** Properties of every run *)

Section Respects.

Variable R : world -> list action -> world -> Prop.
Hypothesis R_refl : forall w, R w [] w.
Hypothesis R_trans :
  forall w1 t1 w2 t2 w3, R w1 t1 w2 -> R w2 t2 w3 -> R w1 (t1 ++ t2) w3.

Lemma respects_ret {A} (a : A) : respects R (ret a).
Proof. intros w. apply R_refl. Qed.

Lemma respects_throw {A} (x : error) : respects R (@throw A x).
Proof. intros w. apply R_refl. Qed.

Lemma respects_read {A} (f : world -> A) : respects R (read f).
Proof. intros w. apply R_refl. Qed.

Lemma respects_bind {A B} (c : M A) (k : A -> M B) :
  respects R c -> (forall a, respects R (k a)) -> respects R (bind c k).
Proof.
  intros Hc Hk w. unfold bind. specialize (Hc w).
  destruct (c w) as [[t1 w1] [a | x]]; cbn [fst snd] in *.
  - specialize (Hk a w1). destruct (k a w1) as [[t2 w2] r].
    cbn [fst snd] in *. eapply R_trans; eassumption.
  - exact Hc.
Qed.

Lemma respects_when (b : bool) (c : M unit) :
  respects R c -> respects R (when b c).
Proof. intros H. destruct b; [exact H | apply respects_ret]. Qed.

Lemma respects_emit (a : action) :
  (forall w, R w [a] w) -> respects R (emit a).
Proof. intros H w. apply H. Qed.

Lemma respects_update (f : world -> world) :
  (forall w, R w [] (f w)) -> respects R (update f).
Proof. intros H w. apply H. Qed.

(** What every handler respects, every run respects. *)
Lemma respects_run (e : env) :
  (forall ev, respects R (handle e ev)) ->
  forall evs w, R w (fst (run e evs w)) (snd (run e evs w)).
Proof.
  intros H evs. induction evs as [| ev rest IH]; intros w.
  - apply R_refl.
  - rewrite run_cons. cbn [fst snd].
    eapply R_trans; [| apply IH].
    specialize (H ev w). unfold step_trace, step_world, step.
    destruct (handle e ev w) as [[t w'] [u | x]]; exact H.
Qed.

End Respects.

(** Splits a goal [respects R c] along the structure of [c]; [refl] and
    [trans] prove that [R] is reflexive and transitive, and [leaf] closes
    the goals about single actions and updates. *)
Ltac respects_step refl trans leaf :=
  first
    [ solve [auto]
    | apply (respects_ret _ refl)
    | apply (respects_throw _ refl)
    | apply (respects_read _ refl)
    | apply (respects_bind _ trans); [| intros ?]
    | apply respects_when; [exact refl |]
    | apply respects_emit; intros ?; leaf
    | apply respects_update; intros ?; leaf
    | match goal with
      | |- respects _ (if ?b then _ else _) => destruct b
      | |- respects _ (match ?x with _ => _ end) => destruct x
      end ].

Ltac respects_all refl trans leaf := repeat respects_step refl trans leaf.

(** *** The configuration *)

Lemma config_kept_refl (w : world) : config_kept w [] w.
Proof. repeat split. constructor. Qed.

Lemma config_kept_trans (w1 : world) (t1 : list action) (w2 : world)
    (t2 : list action) (w3 : world) :
  config_kept w1 t1 w2 -> config_kept w2 t2 w3 -> config_kept w1 (t1 ++ t2) w3.
Proof.
  intros (Hu & Hd & Ht) (Hu' & Hd' & Ht'). rewrite Hu, Hd in *.
  repeat split; try assumption. apply Forall_app. split; assumption.
Qed.

Ltac config_leaf := repeat split; repeat constructor.

Lemma config_startScan (sc er : bool) : respects config_kept (startScan sc er).
Proof.
  intros w. destruct w as [[u d [[|]|]] s l o t];
    destruct (String.eqb s "poweredOn") eqn:E;
    unfold config_kept; with_state E; config_leaf.
Qed.

Lemma config_stopScan (sc er : bool) : respects config_kept (stopScan sc er).
Proof.
  intros w. destruct w as [[u d [[|]|]] s l o t]; destruct er; config_leaf.
Qed.

Lemma config_run_callback (c : callback) :
  respects config_kept (run_callback c).
Proof.
  intros w. destruct w as [[u d f] s l o t]; destruct c; config_leaf.
Qed.

Lemma config_on_discover (e : env) (p : Peripheral.t) (now : Z) (iso : string) :
  respects config_kept (on_discover e p now iso).
Proof.
  unfold on_discover, decode, read_beacon, checked, rssi_identifier.
  respects_all config_kept_refl config_kept_trans config_leaf.
Qed.

Lemma config_handle (e : env) (ev : event) : respects config_kept (handle e ev).
Proof.
  pose proof config_startScan as Hstart.
  pose proof config_stopScan as Hstop.
  destruct ev; cbn [handle].
  - unfold on_stateChange.
    respects_all config_kept_refl config_kept_trans config_leaf.
  - pose proof (config_on_discover e p now iso).
    respects_all config_kept_refl config_kept_trans config_leaf.
  - pose proof config_run_callback as Hcb.
    respects_all config_kept_refl config_kept_trans config_leaf.
  - unfold on_input, and_then, hasOwnProperty.
    respects_all config_kept_refl config_kept_trans config_leaf.
  - respects_all config_kept_refl config_kept_trans config_leaf.
  - unfold on_close.
    respects_all config_kept_refl config_kept_trans config_leaf.
Qed.

(** X12: the configuration is fixed at start-up. The uuids are the
    comma-separated pieces of [n.uuids] (none when it is undefined or
    empty), and in every run after [NobleScan], whatever the events, the
    node's uuids and duplicates stay what the configuration gave, and every
    call of noble.startScanning, that of start-up included, passes exactly
    them. *)
Theorem configuration_is_fixed (e : env) (n : Config.t) (state : string)
    (evs : list event) :
  Node.uuids (node (snd (run_from_start e n state evs))) = configured_uuids n
  /\ Node.duplicates (node (snd (run_from_start e n state evs)))
     = Config.duplicates n
  /\ Forall (start_with (configured_uuids n) (Config.duplicates n))
       (fst (started n state) ++ fst (run_from_start e n state evs)).
Proof.
  assert (S0 : config_kept (fresh n state) (fst (started n state))
                 (snd (started n state))).
  { destruct (String.eqb state "poweredOn") eqn:E.
    - apply String.eqb_eq in E. subst state. config_leaf.
    - unfold started, NobleScan, start_initially, bind, read, update, fresh.
      cbn [noble_state set_noble_listeners]. rewrite E. config_leaf. }
  pose proof (respects_run config_kept config_kept_refl config_kept_trans e
                (config_handle e) evs (snd (started n state))) as S1.
  pose proof (config_kept_trans _ _ _ _ _ S0 S1) as (Hu & Hd & Ht).
  exact (conj Hu (conj Hd Ht)).
Qed.

(** *** Detached listeners *)

Lemma detached_refl (w : world) : stays_detached w [] w.
Proof. intros Ht. split; [exact Ht |]. intros H. split; [exact H | reflexivity]. Qed.

Lemma detached_trans (w1 : world) (t1 : list action) (w2 : world)
    (t2 : list action) (w3 : world) :
  stays_detached w1 t1 w2 -> stays_detached w2 t2 w3 ->
  stays_detached w1 (t1 ++ t2) w3.
Proof.
  intros H1 H2 Ht. destruct (H1 Ht) as (Ht2 & D1).
  destruct (H2 Ht2) as (Ht3 & D2). split; [exact Ht3 |].
  intros H. destruct (D1 H) as (Hl & Hc). destruct (D2 Hl) as (Hl' & Hc').
  split; [exact Hl' |]. rewrite count_app, Hc, Hc'. reflexivity.
Qed.

Ltac detached_leaf :=
  let Ht := fresh in
  let H := fresh in
  intros Ht; split; [exact Ht |]; intros H; split; [exact H | reflexivity].

Lemma detached_startScan (sc er : bool) :
  respects stays_detached (startScan sc er).
Proof.
  unfold startScan, hand_over.
  respects_all detached_refl detached_trans detached_leaf.
Qed.

Lemma detached_stopScan (sc er : bool) :
  respects stays_detached (stopScan sc er).
Proof.
  unfold stopScan, hand_over.
  respects_all detached_refl detached_trans detached_leaf.
Qed.

Lemma detached_handle (e : env) (ev : event) :
  respects stays_detached (handle e ev).
Proof.
  pose proof detached_startScan as Hstart.
  pose proof detached_stopScan as Hstop.
  destruct ev; cbn [handle].
  - unfold on_stateChange.
    respects_all detached_refl detached_trans detached_leaf.
  - intros w Ht. unfold bind, read.
    destruct (noble_listeners w) eqn:Hl; cbn [when].
    + pose proof (keeps_on_discover e p now iso w) as K.
      destruct (on_discover e p now iso w) as [[t w'] r]. cbn [fst snd] in *.
      rewrite app_nil_l, K. split; [exact Ht | discriminate].
    + cbn. split; [exact Ht |]. intros _. split; [exact Hl | reflexivity].
  - unfold run_callback.
    respects_all detached_refl detached_trans detached_leaf.
  - unfold on_input, and_then, hasOwnProperty.
    respects_all detached_refl detached_trans detached_leaf.
  - intros w Ht. unfold bind, read.
    destruct (timeouts w) as [| m rest] eqn:E; cbn.
    + rewrite E. split; [exact Ht |]. intros H. split; [exact H | reflexivity].
    + inversion Ht as [| m' rest' Hm Hrest]; subst.
      split; [exact Hrest |]. intros H. split; [exact H |].
      destruct m; [contradiction | reflexivity].
  - intros w Ht. split.
    + pose proof (keeps_on_close w) as K. rewrite K. exact Ht.
    + intros H. destruct w as [[u d [[|]|]] s l o t].
      all: cbn [noble_listeners] in H; subst l; split; reflexivity.
Qed.

Lemma close_detaches (e : env) (w : world) :
  noble_listeners (step_world e Close w) = false.
Proof.
  destruct w as [[u d [[|]|]] s l o t]; reflexivity.
Qed.

(** X13: nothing after start-up attaches a listener to noble. Once the node
    has been closed, whatever happened before, the listeners stay removed in
    every run that follows and no discovery message is sent any more,
    whatever the adapter reports. *)
Theorem closed_node_sends_no_discovery (e : env) (n : Config.t)
    (state : string) (before after : list event) :
  noble_listeners
    (snd (run e after
            (step_world e Close (snd (run_from_start e n state before)))))
  = false
  /\ count is_discovery
       (fst (run e after
               (step_world e Close (snd (run_from_start e n state before)))))
     = 0%nat.
Proof.
  assert (S0 : Forall status_msg (timeouts (snd (started n state)))).
  { destruct (String.eqb state "poweredOn") eqn:E.
    - apply String.eqb_eq in E. subst state. constructor.
    - apply String.eqb_neq in E. rewrite (started_off n state E).
      repeat constructor. }
  pose proof (respects_run stays_detached detached_refl detached_trans e
                (detached_handle e)) as Hrun.
  destruct (Hrun before _ S0) as (S1 & _). fold (run_from_start e n state before) in S1.
  assert (S2 : Forall status_msg
                 (timeouts (step_world e Close
                              (snd (run_from_start e n state before))))).
  { rewrite step_keeps_timeouts by reflexivity. exact S1. }
  destruct (Hrun after _ S2) as (_ & D).
  apply D. apply close_detaches.
Qed.

(** *** Status messages *)

Lemma balance_refl (w : world) : status_balance w [] w.
Proof. intros Ht. split; [exact Ht | reflexivity]. Qed.

Lemma balance_trans (w1 : world) (t1 : list action) (w2 : world)
    (t2 : list action) (w3 : world) :
  status_balance w1 t1 w2 -> status_balance w2 t2 w3 ->
  status_balance w1 (t1 ++ t2) w3.
Proof.
  intros H1 H2 Ht. destruct (H1 Ht) as (Ht2 & B1).
  destruct (H2 Ht2) as (Ht3 & B2). split; [exact Ht3 |].
  rewrite !count_app. lia.
Qed.

Ltac balance_leaf :=
  let Ht := fresh in intros Ht; split; [exact Ht | reflexivity].

Lemma balance_startScan (sc er : bool) :
  respects status_balance (startScan sc er).
Proof.
  intros w Ht. destruct w as [[u d [[|]|]] s l o t];
    destruct (String.eqb s "poweredOn") eqn:E;
    with_state E; (split; [exact Ht | reflexivity]).
Qed.

Lemma balance_stopScan (sc er : bool) :
  respects status_balance (stopScan sc er).
Proof.
  intros w Ht. destruct w as [[u d [[|]|]] s l o t]; destruct er;
    (split; [exact Ht | reflexivity]).
Qed.

Lemma balance_handle (e : env) (ev : event) :
  respects status_balance (handle e ev).
Proof.
  pose proof balance_startScan as Hstart.
  pose proof balance_stopScan as Hstop.
  destruct ev; cbn [handle].
  - unfold on_stateChange.
    respects_all balance_refl balance_trans balance_leaf.
  - unfold on_discover, decode, read_beacon, checked, rssi_identifier.
    respects_all balance_refl balance_trans balance_leaf.
  - unfold run_callback.
    respects_all balance_refl balance_trans balance_leaf.
  - unfold on_input, and_then, hasOwnProperty.
    respects_all balance_refl balance_trans balance_leaf.
  - intros w Ht. unfold bind, read.
    destruct (timeouts w) as [| m rest] eqn:E; cbn.
    + rewrite ?E. split; [exact Ht | reflexivity].
    + inversion Ht as [| m' rest' Hm Hrest]; subst.
      split; [exact Hrest |]. destruct m; [contradiction |].
      rewrite ?E. cbn. lia.
  - unfold on_close.
    respects_all balance_refl balance_trans balance_leaf.
Qed.

(** X14: every status message the node sends is accounted for. Over the
    whole life of a node, start-up included and whatever the events, the
    status messages sent, together with the timeouts still scheduled, are as
    many as the calls of noble.startScanning and noble.stopScanning, plus
    one when the adapter was not powered on at start-up: each adapter call
    is announced by one status message, and the only other one is the
    deferred message of start-up, sent once if its timeout fires. *)
Theorem status_messages_accounted (e : env) (n : Config.t) (state : string)
    (evs : list event) :
  (count is_status (fst (started n state) ++ fst (run_from_start e n state evs))
   + List.length (timeouts (snd (run_from_start e n state evs)))
   = count is_start
       (fst (started n state) ++ fst (run_from_start e n state evs))
     + count is_stop
         (fst (started n state) ++ fst (run_from_start e n state evs))
     + (if String.eqb state "poweredOn" then 0 else 1))%nat.
Proof.
  pose proof (respects_run status_balance balance_refl balance_trans e
                (balance_handle e) evs (snd (started n state))) as Hrun.
  fold (run_from_start e n state evs) in Hrun.
  destruct (String.eqb state "poweredOn") eqn:E.
  - apply String.eqb_eq in E. subst state.
    destruct Hrun as (_ & B); [constructor |].
    rewrite !count_app.
    change (timeouts (snd (started n "poweredOn"))) with (@nil message) in B.
    change (fst (started n "poweredOn"))
      with [ node_send (StatusMsg false false "poweredOn");
             noble_startScanning (configured_uuids n) (Config.duplicates n) ].
    cbn [count filter is_status is_start is_stop List.length] in *. lia.
  - apply String.eqb_neq in E.
    rewrite (started_off n state E) in *. cbn [fst snd timeouts] in *.
    destruct Hrun as (_ & B); [repeat constructor |].
    rewrite !count_app.
    cbn [count filter is_status is_start is_stop List.length timeouts] in *.
    lia.
Qed.

Lemma status_messages_accounted_example :
  fst (run_from_start plain_env (Config.mk false None) "poweredOff"
         [TimerFires; StateChange "poweredOn"; Completion;
          Input (scan_command false)])
  = [ node_send (StatusMsg true false "poweredOff");
      node_send (StatusMsg false true "poweredOn");
      noble_startScanning [] false;
      node_log "Scanning for BLEs started. UUIDs:  - Duplicates allowed: false";
      node_status "green" "dot" "started";
      node_send (StatusMsg false false "poweredOn");
      noble_stopScanning ].
Proof. reflexivity. Qed.

(** ** The configured uuids *)

Lemma split_comma_nonempty (s : string) : split_comma s <> [].
Proof.
  destruct s as [| c rest]; cbn [split_comma]; [discriminate |].
  destruct (Ascii.eqb c ","); [discriminate |].
  destruct (split_comma rest); discriminate.
Qed.

Lemma concat_split_comma (s : string) : String.concat "," (split_comma s) = s.
Proof.
  induction s as [| c rest IH]; [reflexivity |].
  cbn [split_comma].
  destruct (Ascii.eqb c ",") eqn:E.
  - apply Ascii.eqb_eq in E. subst c.
    pose proof (split_comma_nonempty rest) as Hne.
    destruct (split_comma rest) as [| h t]; [contradiction |].
    cbn [String.concat] in *. rewrite IH. reflexivity.
  - pose proof (split_comma_nonempty rest) as Hne.
    destruct (split_comma rest) as [| first others]; [contradiction |].
    destruct others as [| o os]; cbn [String.concat String.append] in *;
      rewrite IH; reflexivity.
Qed.

Lemma length_split_comma (s : string) :
  List.length (split_comma s) = S (commas s).
Proof.
  induction s as [| c rest IH]; [reflexivity |].
  cbn [split_comma commas].
  destruct (Ascii.eqb c ",").
  - cbn [List.length]. rewrite IH. reflexivity.
  - pose proof (split_comma_nonempty rest) as Hne.
    destruct (split_comma rest) as [| first others]; [contradiction |].
    cbn [List.length] in *. rewrite IH. reflexivity.
Qed.

Lemma split_comma_pieces (s : string) :
  Forall (fun piece => commas piece = 0%nat) (split_comma s).
Proof.
  induction s as [| c rest IH]; [repeat constructor |].
  cbn [split_comma].
  destruct (Ascii.eqb c ",") eqn:E.
  - constructor; [reflexivity | exact IH].
  - destruct (split_comma rest) as [| first others].
    + repeat constructor. cbn [commas]. rewrite E. reflexivity.
    + inversion IH as [| x l Hfirst Hothers]; subst.
      constructor; [| exact Hothers].
      cbn [commas]. rewrite E, Hfirst. reflexivity.
Qed.

(** X15: how the configured text becomes the list of uuids (lines 37-40).
    An undefined or empty text gives no uuid at all. Any other text is cut
    at its commas and nowhere else: there is one piece more than there are
    commas, no piece holds a comma, and the pieces joined with commas are
    the text again, so nothing is trimmed or dropped (a blank stays in its
    piece, and two commas in a row give an empty uuid). *)
Theorem configured_uuids_split (n : Config.t) :
  match Config.uuids n with
  | None => configured_uuids n = []
  | Some s =>
      if String.eqb s EmptyString then configured_uuids n = []
      else String.concat "," (configured_uuids n) = s
           /\ List.length (configured_uuids n) = S (commas s)
           /\ Forall (fun piece => commas piece = 0%nat) (configured_uuids n)
  end.
Proof.
  unfold configured_uuids. destruct (Config.uuids n) as [s |]; [| reflexivity].
  destruct (String.eqb s EmptyString); [reflexivity |].
  split; [apply concat_split_comma |].
  split; [apply length_split_comma | apply split_comma_pieces].
Qed.

(** X16: the log line of a confirmed start shows the configured text as it
    was written: line 105 joins the uuids with commas again, which undoes the
    split of line 39. After a start-up on a powered-on adapter, the
    completion of the start logs that line and sets the node's status, and
    does nothing else. *)
Theorem started_log_shows_configuration (e : env) (n : Config.t) (s : string) :
  Config.uuids n = Some s ->
  s <> EmptyString ->
  fst (run_from_start e n "poweredOn" [Completion])
  = [ node_log ("Scanning for BLEs started. UUIDs: " ++ s
                ++ " - Duplicates allowed: "
                ++ bool_text (Config.duplicates n));
      node_status "green" "dot" "started" ].
Proof.
  intros Hu Hs. apply String.eqb_neq in Hs.
  assert (J : String.concat "," (configured_uuids n) = s).
  { unfold configured_uuids. rewrite Hu, Hs. apply concat_split_comma. }
  unfold run_from_start, started, NobleScan, start_initially, fresh.
  cbn -[configured_uuids String.concat String.append].
  rewrite J. reflexivity.
Qed.

Lemma started_log_shows_configuration_witness :
  fst (run_from_start plain_env (Config.mk true (Some "180d, 180f,"%string))
         "poweredOn" [Completion])
  = [ node_log
        "Scanning for BLEs started. UUIDs: 180d, 180f, - Duplicates allowed: true";
      node_status "green" "dot" "started" ].
Proof.
  apply (started_log_shows_configuration plain_env
           (Config.mk true (Some "180d, 180f,"%string)) "180d, 180f,").
  - reflexivity.
  - discriminate.
Defined.

(** *** The deferred message *)

Lemma deferred_refl (w : world) : deferred_once w [] w.
Proof. intros Ht. split; [exact Ht | reflexivity]. Qed.

Lemma deferred_trans (w1 : world) (t1 : list action) (w2 : world)
    (t2 : list action) (w3 : world) :
  deferred_once w1 t1 w2 -> deferred_once w2 t2 w3 ->
  deferred_once w1 (t1 ++ t2) w3.
Proof.
  intros H1 H2 Ht. destruct (H1 Ht) as (Ht2 & B1).
  destruct (H2 Ht2) as (Ht3 & B2). split; [exact Ht3 |].
  rewrite count_app. lia.
Qed.

Ltac deferred_leaf :=
  let Ht := fresh in intros Ht; split; [exact Ht | reflexivity].

(** The four calls the file makes: none sends an error that is not a state
    change. *)
Lemma deferred_calls :
  respects deferred_once (startScan true false)
  /\ respects deferred_once (startScan false false)
  /\ respects deferred_once (stopScan true true)
  /\ respects deferred_once (stopScan false false).
Proof.
  split; [| split; [| split]]; intros w Ht;
    destruct w as [[u d [[|]|]] s l o t];
    destruct (String.eqb s "poweredOn") eqn:E;
    with_state E; (split; [exact Ht | reflexivity]).
Qed.

Lemma deferred_handle (e : env) (ev : event) :
  respects deferred_once (handle e ev).
Proof.
  destruct deferred_calls as (H1 & H2 & H3 & H4).
  destruct ev; cbn [handle].
  - unfold on_stateChange.
    respects_all deferred_refl deferred_trans deferred_leaf.
  - unfold on_discover, decode, read_beacon, checked, rssi_identifier.
    respects_all deferred_refl deferred_trans deferred_leaf.
  - unfold run_callback.
    respects_all deferred_refl deferred_trans deferred_leaf.
  - unfold on_input, and_then, hasOwnProperty.
    respects_all deferred_refl deferred_trans deferred_leaf.
  - intros w Ht. unfold bind, read.
    destruct (timeouts w) as [| m rest] eqn:E; cbn.
    + rewrite ?E. split; [exact Ht | reflexivity].
    + cbn [forallb] in Ht. apply andb_prop in Ht as (Hm & Hrest).
      split; [exact Hrest |]. rewrite ?E. cbn. unfold count. cbn.
      rewrite Hm. reflexivity.
  - unfold on_close.
    respects_all deferred_refl deferred_trans deferred_leaf.
Qed.

(** X17: a status message that is an error without being a state change is
    sent at most once in the life of a node, and only by the timeout of a
    start-up on an adapter that was not powered on. With start-up included
    and whatever the events, such messages sent and timeouts still
    scheduled add up to one if the adapter was not powered on at start-up,
    and to none if it was. *)
Theorem deferred_message_at_most_once (e : env) (n : Config.t)
    (state : string) (evs : list event) :
  (count is_deferred
     (fst (started n state) ++ fst (run_from_start e n state evs))
   + List.length (timeouts (snd (run_from_start e n state evs)))
   = (if String.eqb state "poweredOn" then 0 else 1))%nat.
Proof.
  pose proof (respects_run deferred_once deferred_refl deferred_trans e
                (deferred_handle e) evs (snd (started n state))) as Hrun.
  fold (run_from_start e n state evs) in Hrun.
  destruct (String.eqb state "poweredOn") eqn:E.
  - apply String.eqb_eq in E. subst state.
    destruct Hrun as (_ & B); [reflexivity |].
    rewrite count_app.
    change (timeouts (snd (started n "poweredOn"))) with (@nil message) in B.
    change (fst (started n "poweredOn"))
      with [ node_send (StatusMsg false false "poweredOn");
             noble_startScanning (configured_uuids n) (Config.duplicates n) ].
    cbn [count filter is_deferred deferred_msg List.length] in *. lia.
  - apply String.eqb_neq in E.
    rewrite (started_off n state E) in *. cbn [fst snd timeouts] in *.
    destruct Hrun as (_ & B); [reflexivity |].
    rewrite count_app.
    cbn [count filter is_deferred deferred_msg List.length timeouts] in *.
    lia.
Qed.

(** X18: closing the node while a start is still outstanding stops nothing
    and forgets the start. On an adapter that is (or hereby becomes) powered
    on, after a start request and a close there is one call of
    noble.startScanning and none of noble.stopScanning: the flag is not set
    yet, so stopScan makes no call. The callback of the start has been
    removed with the other listeners, so a later completion reaches nothing
    and the flag is never set. *)
Theorem close_before_start_is_confirmed (e : env) (w : world) (req : event) :
  noble_listeners w = true ->
  truthy (Node.scanning (node w)) = false ->
  outstanding w = [] ->
  deferred_start_request w req ->
  count is_start (fst (run e [req; Close] w)) = 1%nat
  /\ count is_stop (fst (run e [req; Close] w)) = 0%nat
  /\ outstanding (snd (run e [req; Close] w)) = []
  /\ step e Completion (snd (run e [req; Close] w))
     = ([], snd (run e [req; Close] w), None)
  /\ Node.scanning (node (snd (run e [req; Close] w)))
     = Node.scanning (node w).
Proof.
  intros Hl Hf Ho [-> | (-> & Hs)];
    destruct w as [[u d [[|]|]] s l o t];
    cbn [node Node.scanning truthy noble_listeners noble_state outstanding]
      in *;
    subst; try discriminate; repeat split.
Qed.

Lemma close_before_start_is_confirmed_witness :
  count is_start
    (fst (run plain_env [StateChange "poweredOn"; Close]
            (snd (started (Config.mk false None) "poweredOff")))) = 1%nat
  /\ count is_stop
       (fst (run plain_env [StateChange "poweredOn"; Close]
               (snd (started (Config.mk false None) "poweredOff")))) = 0%nat
  /\ outstanding
       (snd (run plain_env [StateChange "poweredOn"; Close]
               (snd (started (Config.mk false None) "poweredOff")))) = []
  /\ step plain_env Completion
       (snd (run plain_env [StateChange "poweredOn"; Close]
               (snd (started (Config.mk false None) "poweredOff"))))
     = ([], snd (run plain_env [StateChange "poweredOn"; Close]
                   (snd (started (Config.mk false None) "poweredOff"))),
        None)
  /\ Node.scanning
       (node (snd (run plain_env [StateChange "poweredOn"; Close]
                     (snd (started (Config.mk false None) "poweredOff")))))
     = None.
Proof.
  apply (close_before_start_is_confirmed plain_env
           (snd (started (Config.mk false None) "poweredOff"))
           (StateChange "poweredOn")).
  - reflexivity.
  - reflexivity.
  - reflexivity.
  - left. reflexivity.
Defined.
